(** * Build event protocol view of bazel-stack-vscode (src/bzl/view/events.ts)

    A shallow embedding of the build-event state tracker [BuildEventState],
    of the tree items derived from build events and of the event handlers of
    [BuildEventProtocolView], followed by the properties of the
    specification that concern them.

    Conventions.  A TypeScript field of type [T | undefined] is an
    [option T].  A JavaScript [Map] with string keys is a [gmap]; because the
    keys are written as [id?.id!] they may be [undefined] at run time, so the
    key type is [option string].  A [Set<File>] compares objects by
    reference and iterates in insertion order: it is a list of files without
    two entries of the same object identity.  Handlers are [async] functions
    without any [await] in their body, so each one runs to completion when
    the event emitter calls it; an exception turns into a rejected promise,
    which the emitter does not observe. *)

From Stdlib Require Import ZArith Lia Ascii.
From stdpp Require Import base option list strings gmap pretty.

Local Open Scope string_scope.
Local Open Scope nat_scope.
Local Open Scope list_scope.

(** ** JavaScript preliminaries *)

Inductive JsError :=
  | TypeError (msg : string).

(** Result of running a piece of code that may throw. *)
Inductive Outcome (A : Type) :=
  | Returned (a : A)
  | Threw (err : JsError).
Arguments Returned {A} a.
Arguments Threw {A} err.

Definition Outcome_bind {A B} (o : Outcome A) (k : A → Outcome B) : Outcome B :=
  match o with
  | Returned a => k a
  | Threw err => Threw err
  end.

Notation "x ←! c ; k" := (Outcome_bind c (λ x, k))
  (at level 20, c at level 100, k at level 200, right associativity,
   format "x  ←!  c ;  '/' k").

(** Truthiness of the optional values the handlers branch on. *)
Definition truthy_bool (b : option bool) : bool := default false b.

Definition truthy_string (s : option string) : bool :=
  match s with
  | Some s => negb (String.eqb s "")
  | None => false
  end.

(** Optional chaining, [o?.f]. *)
Definition chain {A B} (o : option A) (f : A → option B) : option B :=
  match o with
  | Some a => f a
  | None => None
  end.

Infix "?." := chain (at level 50, left associativity).

(** [`${x}`] for an optional string: [undefined] prints as its name. *)
Definition template (s : option string) : string := default "undefined" s.

(** The [long] package, for the part [BuildFinishedItem] uses.  The gRPC
    loader is configured without a [longs] conversion
    (configuration.ts, [loader.loadSync] options), so an int64 field that is
    present is decoded as a [Long] object: a signed 64-bit integer, here
    its value.  [Long.fromValue] dispatches on [typeof val] and, for
    anything that is neither a number nor a string, reads [val.low]: on
    [undefined] this is a [TypeError]. *)
Module Long.

Definition t := Z.

(** Two's complement wrap-around to 64 bits. *)
Definition wrap (z : Z) : Z := ((z + 2 ^ 63) `mod` 2 ^ 64 - 2 ^ 63)%Z.

Definition fromValue (val : option t) : Outcome t :=
  match val with
  | Some l => Returned (wrap l)
  | None => Threw (TypeError "Cannot read property 'low' of undefined")
  end.

Definition sub (a b : t) : t := wrap (a - b).

Definition toString (a : t) : string := pretty a.

End Long.

(** ** Decoded protocol messages

    With [defaults: false] the loader leaves out every field that is not on
    the wire, so the fields of a decoded message are optional, as in the
    generated interfaces (see ActionExecuted.ts). *)

(** Inline contents of a file: [string | Uint8Array | Buffer]. *)
Inductive Contents :=
  | ContentsString (s : string)
  | ContentsBytes (bytes : list Byte.byte).

Definition truthy_contents (c : option Contents) : bool :=
  match c with
  | Some (ContentsString s) => negb (String.eqb s "")
  | Some (ContentsBytes _) => true
  | None => false
  end.

(** Modelled from the spec: File.ts is not among the sources; a file record
    has a name, an optional URI and optional inline contents (data model,
    NamedFileSet).  [file_ref] is the identity of the decoded object, which
    is what a [Set<File>] compares. *)
Record File := {
  file_ref : positive;
  file_name : string;
  file_uri : option string;
  file_contents : option Contents;
}.

Record NamedSetOfFilesId := {
  nsid_id : option string;
}.

Record NamedSetOfFiles := {
  nsf_files : option (list File);
  nsf_fileSets : option (list NamedSetOfFilesId);
}.

Record TargetConfigured := {
  targetKind : option string;
}.

Record WorkspaceConfig := {
  localExecRoot : option string;
}.

Record BuildStarted := {
  uuid : option string;
  startTimeMillis : option Long.t;
  buildToolVersion : option string;
  optionsDescription : option string;
  command : option string;
  workingDirectory : option string;
  workspaceDirectory : option string;
}.

Record ExitCode := {
  exit_name : option string;
  exit_code : option Z;
}.

Record BuildFinished := {
  overallSuccess : option bool;
  exitCode : option ExitCode;
  finishTimeMillis : option Long.t;
}.

Record FailureDetail := {
  fd_message : option string;
  fd_category : option string;
}.

Record ActionExecuted := {
  action_success : option bool;
  action_exitCode : option Z;
  action_stdout : option File;
  action_stderr : option File;
  action_label : option string;
  action_type : option string;
  action_commandLine : option (list string);
}.

Record OutputGroup := {
  og_name : option string;
  og_fileSets : option (list NamedSetOfFilesId);
}.

Record TargetComplete := {
  tc_success : option bool;
  tc_outputGroup : option (list OutputGroup);
  tc_importantOutput : option (list File);
  tc_failureDetail : option FailureDetail;
}.

(** An enum value is a number unless the loader converts it to its name. *)
Inductive EnumValue :=
  | EnumName (name : string)
  | EnumNumber (n : Z).

Record TestResult := {
  tr_status : option EnumValue;
  tr_statusDetails : option string;
  tr_testActionOutput : option (list File);
}.

(** [BuildEventId]: a oneof, of which the handlers read four cases. *)
Inductive BuildEventId :=
  | IdNamedSet (id : NamedSetOfFilesId)
  | IdTargetConfigured (label : option string)
  | IdTargetCompleted (label : option string)
  | IdTestResult (label : option string)
  | IdOther (kind : string).

(** The [payload] oneof of a build event: with [oneofs: true] the field
    [payload] names the member that is set, and only that member is. *)
Inductive Payload :=
  | PStarted (started : BuildStarted)
  | PWorkspaceInfo (info : WorkspaceConfig)
  | PAction (action : ActionExecuted)
  | PNamedSetOfFiles (fileSet : NamedSetOfFiles)
  | PConfigured (configured : TargetConfigured)
  | PCompleted (completed : TargetComplete)
  | PFinished (finished : BuildFinished)
  | PTestResult (test : TestResult)
  | POther (kind : option string).

(** [BazelBuildEvent]: the ordered build event [obe] (its sequence number)
    and the build event [bes]. *)
Record BazelBuildEvent := {
  obe_sequenceNumber : Z;
  bes_id : option BuildEventId;
  bes_payload : Payload;
}.

Definition bes_started (e : BazelBuildEvent) : option BuildStarted :=
  match bes_payload e with PStarted s => Some s | _ => None end.

Definition bes_action (e : BazelBuildEvent) : option ActionExecuted :=
  match bes_payload e with PAction a => Some a | _ => None end.

Definition bes_namedSetOfFiles (e : BazelBuildEvent) : option NamedSetOfFiles :=
  match bes_payload e with PNamedSetOfFiles f => Some f | _ => None end.

Definition bes_configured (e : BazelBuildEvent) : option TargetConfigured :=
  match bes_payload e with PConfigured c => Some c | _ => None end.

Definition bes_completed (e : BazelBuildEvent) : option TargetComplete :=
  match bes_payload e with PCompleted c => Some c | _ => None end.

Definition bes_finished (e : BazelBuildEvent) : option BuildFinished :=
  match bes_payload e with PFinished f => Some f | _ => None end.

Definition bes_testResult (e : BazelBuildEvent) : option TestResult :=
  match bes_payload e with PTestResult t => Some t | _ => None end.

(** [event.bes.id?.namedSet], [.targetConfigured], [.targetCompleted]. *)
Definition id_namedSet (e : BazelBuildEvent) : option NamedSetOfFilesId :=
  match bes_id e with Some (IdNamedSet i) => Some i | _ => None end.

Definition id_targetConfigured_label (e : BazelBuildEvent) : option string :=
  match bes_id e with Some (IdTargetConfigured l) => l | _ => None end.

Definition id_targetCompleted_label (e : BazelBuildEvent) : option string :=
  match bes_id e with Some (IdTargetCompleted l) => l | _ => None end.

(** ** Maps and sets as the code uses them *)

(** Key of the two maps of the tracker: a string, or [undefined]. *)
Abbreviation Key := (option string).

(** [Map.prototype.get]: [undefined] when the key is absent, and also when
    the value stored under it is [undefined]. *)
Definition Map_get {V} (m : gmap Key (option V)) (k : Key) : option V :=
  m !! k ≫= id.

(** [Set.prototype.add] on a [Set<File>]: an object already in the set is
    not added again, a new one goes last. *)
Definition Set_has (files : list File) (f : File) : bool :=
  bool_decide (file_ref f ∈ file_ref <$> files).

Definition Set_add (files : list File) (f : File) : list File :=
  if Set_has files f then files else files ++ [f].

(** [for (const x of xs) body] over a state, stopping when the body does
    not come back. *)
Fixpoint for_of {A S} (body : A → S → option S) (xs : list A) (s : S) : option S :=
  match xs with
  | [] => Some s
  | x :: xs' => body x s ≫= for_of body xs'
  end.

(** ** BuildEventState *)

Record BuildEventState := {
  fileSets : gmap Key (option NamedSetOfFiles);
  targetsConfigured : gmap Key (option TargetConfigured);
  workspaceInfo : option WorkspaceConfig;
  started : option BuildStarted;
}.

(** [new BuildEventState()] *)
Definition BuildEventState_new : BuildEventState :=
  {| fileSets := ∅; targetsConfigured := ∅;
     workspaceInfo := None; started := None |}.

Definition handleNamedSetOfFiles (st : BuildEventState) (event : BazelBuildEvent)
  : BuildEventState :=
  let id := id_namedSet event in
  let fileSet := bes_namedSetOfFiles event in
  {| fileSets := <[id ?. nsid_id := fileSet]> (fileSets st);
     targetsConfigured := targetsConfigured st;
     workspaceInfo := workspaceInfo st;
     started := started st |}.

Definition handleTargetConfigured (st : BuildEventState) (event : BazelBuildEvent)
  : BuildEventState :=
  let label := id_targetConfigured_label event in
  let configured := bes_configured event in
  {| fileSets := fileSets st;
     targetsConfigured := <[label := configured]> (targetsConfigured st);
     workspaceInfo := workspaceInfo st;
     started := started st |}.

Definition reset (st : BuildEventState) : BuildEventState :=
  {| fileSets := ∅;
     targetsConfigured := targetsConfigured st;
     workspaceInfo := None;
     started := None |}.

(** The three resolution functions call each other.  The recursion goes
    through [collectFilesFromFileSetIds], which takes the number of nested
    calls it may still make ([fuel]); [None] stands for a run that has not
    returned within that depth.  The set [files] the source mutates is
    passed through. *)
Section Collect.

Variable st : BuildEventState.
Variable collectIds : option (list NamedSetOfFilesId) → list File → option (list File).

Definition collectFilesFromFileSet (fileSet : option NamedSetOfFiles)
  (files : list File) : option (list File) :=
  match fileSet with
  | None => Some files
  | Some fs =>
      let files := foldl Set_add files (default [] (nsf_files fs)) in
      collectIds (nsf_fileSets fs) files
  end.

Definition collectFilesFromFileSetId (id : option NamedSetOfFilesId)
  (files : list File) : option (list File) :=
  match id with
  | None => Some files
  | Some i => collectFilesFromFileSet (Map_get (fileSets st) (nsid_id i)) files
  end.

End Collect.

Fixpoint collectFilesFromFileSetIds (fuel : nat) (st : BuildEventState)
  (ids : option (list NamedSetOfFilesId)) (files : list File) : option (list File) :=
  match fuel with
  | O => None
  | S fuel' =>
      match ids with
      | None => Some files
      | Some ids =>
          for_of (λ id, collectFilesFromFileSetId st
                          (collectFilesFromFileSetIds fuel' st) (Some id))
                 ids files
      end
  end.

Definition getTargetKind (st : BuildEventState) (event : BazelBuildEvent)
  : option string :=
  let label := id_targetCompleted_label event in
  match Map_get (targetsConfigured st) label with
  | None => None
  | Some configured => targetKind configured
  end.

(** ** Tree items

    One constructor per class of item the view builds.  Of the
    presentation fields set by the constructors only those the handlers and
    the properties below read are kept: the originating event, the label of
    a finished item, the label and the cached [outputs] of a completed
    target, and the collapsible state of a failed action. *)

Inductive TreeItemCollapsibleState :=
  | CollapsibleNone
  | Collapsed
  | Expanded.

(** Modelled from the spec: common/markers.ts is not among the sources; a
    marker has a resource, a severity, start and end positions and a message
    (data model, IMarker). *)
Inductive MarkerSeverity :=
  | Hint
  | Info
  | Warning
  | Error.

Record IMarker := {
  resource : option string;
  severity : MarkerSeverity;
  startLineNumber : Z;
  startColumn : Z;
  endLineNumber : Z;
  endColumn : Z;
  message : string;
}.

(** [vscode.Uri], by its string form. *)
Abbreviation Uri := string.

(** [Map<vscode.Uri, IMarker[]>], in insertion order. *)
Abbreviation Problems := (list (Uri * list IMarker)).

#[warnings="-register-all"]
Inductive BazelBuildEventItem :=
  | BuildStartedItem (event : BazelBuildEvent)
  | BuildSuccessItem (event : BazelBuildEvent)
      (timeDelta : option Long.t) (label : string)
  | BuildFailedItem (event : BazelBuildEvent)
      (timeDelta : option Long.t) (label : string)
  | ActionFailedItem (event : BazelBuildEvent)
      (collapsibleState : TreeItemCollapsibleState)
  | ActionSuccessItem (event : BazelBuildEvent)
  | TestResultFailedItem (event : BazelBuildEvent)
  | TargetCompleteItem (event : BazelBuildEvent) (label : string)
      (outputs : option (list BazelBuildEventItem))
  | FileItem (event : BazelBuildEvent) (file : File)
  | ProblemFileItem (event : BazelBuildEvent) (uri : Uri) (markers : list IMarker)
  | FileMarkerItem (event : BazelBuildEvent) (uri : Uri) (marker : IMarker)
  | FailureDetailItem (event : BazelBuildEvent) (detail : FailureDetail).

(** The getter [attention]: [false] in the base class, overridden by the
    started, finished, failed-action, failed-test and completed-target
    items. *)
Definition attention (item : BazelBuildEventItem) : bool :=
  match item with
  | BuildStartedItem _ => true
  | BuildSuccessItem _ _ _ | BuildFailedItem _ _ _ => true
  | ActionFailedItem _ _ => true
  | TestResultFailedItem _ => true
  | TargetCompleteItem event _ _ =>
      negb (truthy_bool (bes_completed event ?. tc_success))
  | ActionSuccessItem _ | FileItem _ _ | ProblemFileItem _ _ _
  | FileMarkerItem _ _ _ | FailureDetailItem _ _ => false
  end.

(** [item instanceof ActionSuccessItem], [... BuildStartedItem],
    [... BuildFinishedItem] (the success and the failed item). *)
Definition is_ActionSuccessItem (item : BazelBuildEventItem) : bool :=
  match item with ActionSuccessItem _ => true | _ => false end.

Definition is_BuildStartedItem (item : BazelBuildEventItem) : bool :=
  match item with BuildStartedItem _ => true | _ => false end.

Definition is_BuildFinishedItem (item : BazelBuildEventItem) : bool :=
  match item with
  | BuildSuccessItem _ _ _ | BuildFailedItem _ _ _ => true
  | _ => false
  end.

(** Constructor of [BuildFinishedItem]: the time delta and the label.  The
    two [Long.fromValue] calls come before the [try] block, so what they
    throw leaves the constructor; [end.sub(start)] on two [Long] objects
    does not throw, and a [Long] object is truthy whatever its value. *)
Definition BuildFinishedItem_new (event : BazelBuildEvent)
  (started : option BuildStarted) : Outcome (option Long.t * string) :=
  finish ←! Long.fromValue (bes_finished event ?. finishTimeMillis);
  start ←! Long.fromValue (started ?. startTimeMillis);
  let timeDelta := Some (Long.sub finish start) in
  let elapsed :=
    match timeDelta with
    | Some delta => "(" +:+ Long.toString delta +:+ "ms)"
    | None => ""
    end in
  Returned (timeDelta,
            template (bes_finished event ?. exitCode ?. exit_name)
              +:+ " " +:+ elapsed).

Definition BuildSuccessItem_new (event : BazelBuildEvent)
  (started : option BuildStarted) : Outcome BazelBuildEventItem :=
  r ←! BuildFinishedItem_new event started;
  Returned (BuildSuccessItem event r.1 r.2).

Definition BuildFailedItem_new (event : BazelBuildEvent)
  (started : option BuildStarted) : Outcome BazelBuildEventItem :=
  r ←! BuildFinishedItem_new event started;
  Returned (BuildFailedItem event r.1 r.2).

Definition ActionFailedItem_new (event : BazelBuildEvent) : BazelBuildEventItem :=
  ActionFailedItem event Expanded.

(** The label of a completed target is computed when the item is built,
    from the tracker as it is then. *)
Definition TargetCompleteItem_new (event : BazelBuildEvent)
  (st : BuildEventState) : BazelBuildEventItem :=
  TargetCompleteItem event
    (template (getTargetKind st event)
       +:+ (if truthy_bool (bes_completed event ?. tc_success) then "" else " failed")
       +:+ " ")
    None.

(** [TargetCompleteItem.getChildren].  The item holds a reference to the
    tracker of the view, so the file sets are those of the tracker at the
    time of the call, [st].  The result is the children together with the
    [outputs] field afterwards; [None] when the resolution has not returned
    within [fuel]. *)
Definition TargetCompleteItem_getChildren (fuel : nat) (st : BuildEventState)
  (event : BazelBuildEvent) (outputs : option (list BazelBuildEventItem))
  : option (list BazelBuildEventItem * option (list BazelBuildEventItem)) :=
  match bes_completed event ?. tc_failureDetail with
  | Some detail => Some ([FailureDetailItem event detail], outputs)
  | None =>
      match outputs with
      | Some out => Some (out, outputs)
      | None =>
          match for_of
                  (λ group, collectFilesFromFileSetIds fuel st (og_fileSets group))
                  (default [] (bes_completed event ?. tc_outputGroup)) [] with
          | Some files =>
              let out := map (FileItem event) files in
              Some (out, Some out)
          | None => None
          end
      end
  end.

(** ** ProblemCollector

    The registry of problem matchers and the matcher engine live in
    common/problemMatcher.ts, outside these sources: they are parameters.
    [readAndParse matcher uri] stands for reading the file at [uri] and
    running [parseProblems] with the matcher over its bytes; it may throw
    (malformed URL, unreadable file). *)
Section ProblemCollector.

Context {ProblemMatcher : Type}.
Variable registry_get : option string → option ProblemMatcher.
Variable readAndParse : ProblemMatcher → string → Outcome Problems.

Definition fileContentProblems (type : option string) (matcher : ProblemMatcher)
  (contents : option Contents) : Outcome (option Problems) :=
  Returned None.

Definition fileUriProblems (type : option string) (matcher : ProblemMatcher)
  (uri : string) : Outcome (option Problems) :=
  problems ←! readAndParse matcher uri;
  Returned (Some problems).

(** The matcher found in the registry is given the URI provider of the
    collector before it is used; that assignment does not bear on which
    branch is taken. *)
Definition fileProblems (type : option string) (file : File)
  : Outcome (option Problems) :=
  match registry_get type with
  | None => Returned None
  | Some matcher =>
      if truthy_contents (file_contents file) then
        fileContentProblems type matcher (file_contents file)
      else if truthy_string (file_uri file) then
        fileUriProblems type matcher (default "" (file_uri file))
      else Returned None
  end.

Definition actionProblems (action : ActionExecuted) : Outcome (option Problems) :=
  if truthy_bool (action_success action) then Returned None
  else
    match action_stderr action with
    | Some stderr => fileProblems (action_type action) stderr
    | None =>
        match action_stdout action with
        | Some stdout => fileProblems (action_type action) stdout
        | None => Returned None
        end
    end.

(** [ActionFailedItem.getChildren]: the children ([None] for
    [undefined]) and the collapsible state of the item afterwards. *)
Definition ActionFailedItem_getChildren (event : BazelBuildEvent)
  (collapsibleState : TreeItemCollapsibleState)
  : Outcome (option (list BazelBuildEventItem) * TreeItemCollapsibleState) :=
  match bes_action event with
  | None => Threw (TypeError "Cannot read property 'success' of undefined")
  | Some action =>
      problems ←! actionProblems action;
      match problems with
      | None => Returned (None, CollapsibleNone)
      | Some problems =>
          Returned (Some (map (λ p, ProblemFileItem event p.1 p.2) problems),
                    collapsibleState)
      end
  end.

End ProblemCollector.

(** ** The item array of the view

    [items] is a JavaScript array.  Its elements are [elems].  The index
    [items.length - 1] is [-1] on an empty array, which is not an array
    index but the property named "-1": reading it gives that property, and
    assigning to it sets the property and leaves the length and the
    elements alone.  [prop_m1] is that property. *)
Record ItemArray := {
  elems : list BazelBuildEventItem;
  prop_m1 : option BazelBuildEventItem;
}.

(** [items.push(item)] *)
Definition Array_push (a : ItemArray) (item : BazelBuildEventItem) : ItemArray :=
  {| elems := elems a ++ [item]; prop_m1 := prop_m1 a |}.

(** [items[items.length - 1]] *)
Definition Array_get_last (a : ItemArray) : option BazelBuildEventItem :=
  match elems a with
  | [] => prop_m1 a
  | l => l !! (length l - 1)
  end.

(** [items[items.length - 1] = item] *)
Definition Array_set_last (a : ItemArray) (item : BazelBuildEventItem) : ItemArray :=
  match elems a with
  | [] => {| elems := []; prop_m1 := Some item |}
  | l => {| elems := <[length l - 1 := item]> l; prop_m1 := prop_m1 a |}
  end.

(** [items.length = 0] *)
Definition Array_truncate (a : ItemArray) : ItemArray :=
  {| elems := []; prop_m1 := prop_m1 a |}.

(** [items.filter(p)]: a new array. *)
Definition Array_filter (p : BazelBuildEventItem → bool) (a : ItemArray) : ItemArray :=
  {| elems := List.filter p (elems a); prop_m1 := None |}.

(** ** BuildEventProtocolView

    The fields the handlers update: the item array, the passed tests, the
    tracker and the [started] field of the problem collector.  Refreshing
    the tree and recreating the diagnostics collection act on the editor
    only. *)
Record BuildEventProtocolView := {
  items : ItemArray;
  testsPassed : list TestResult;
  state : BuildEventState;
  problemCollector_started : option BuildStarted;
}.

Definition BuildEventProtocolView_new : BuildEventProtocolView :=
  {| items := {| elems := []; prop_m1 := None |};
     testsPassed := [];
     state := BuildEventState_new;
     problemCollector_started := None |}.

Definition with_items (v : BuildEventProtocolView) (a : ItemArray)
  : BuildEventProtocolView :=
  {| items := a; testsPassed := testsPassed v; state := state v;
     problemCollector_started := problemCollector_started v |}.

Definition with_state (v : BuildEventProtocolView) (st : BuildEventState)
  : BuildEventProtocolView :=
  {| items := items v; testsPassed := testsPassed v; state := st;
     problemCollector_started := problemCollector_started v |}.

Definition clear (v : BuildEventProtocolView) : BuildEventProtocolView :=
  {| items := Array_truncate (items v);
     testsPassed := [];
     state := reset (state v);
     problemCollector_started := None |}.

Definition addItem (v : BuildEventProtocolView) (item : BazelBuildEventItem)
  : BuildEventProtocolView :=
  with_items v (Array_push (items v) item).

Definition replaceLastItem (v : BuildEventProtocolView) (item : BazelBuildEventItem)
  : BuildEventProtocolView :=
  with_items v (Array_set_last (items v) item).

Definition getRootItems (v : BuildEventProtocolView) : list BazelBuildEventItem :=
  elems (items v).

Definition handleStartedEvent (v : BuildEventProtocolView) (e : BazelBuildEvent)
  (started : BuildStarted) : BuildEventProtocolView :=
  let v := clear v in
  let v :=
    {| items := items v;
       testsPassed := testsPassed v;
       state := {| fileSets := fileSets (state v);
                   targetsConfigured := targetsConfigured (state v);
                   workspaceInfo := workspaceInfo (state v);
                   started := Some started |};
       problemCollector_started := Some started |} in
  addItem v (BuildStartedItem e).

Definition handleWorkspaceInfoEvent (v : BuildEventProtocolView) (e : BazelBuildEvent)
  (info : WorkspaceConfig) : BuildEventProtocolView :=
  with_state v {| fileSets := fileSets (state v);
                  targetsConfigured := targetsConfigured (state v);
                  workspaceInfo := Some info;
                  started := started (state v) |}.

Definition handleCompletedEvent (v : BuildEventProtocolView) (e : BazelBuildEvent)
  (completed : TargetComplete) : BuildEventProtocolView :=
  addItem v (TargetCompleteItem_new e (state v)).

(** The list is filtered first; when the constructor of the finished item
    throws, the handler ends there and nothing is appended. *)
Definition handleFinishedEvent (v : BuildEventProtocolView) (e : BazelBuildEvent)
  (finished : BuildFinished) : BuildEventProtocolView * Outcome () :=
  let v := with_items v (Array_filter attention (items v)) in
  let item :=
    if truthy_bool (overallSuccess finished)
    then BuildSuccessItem_new e (started (state v))
    else BuildFailedItem_new e (started (state v)) in
  match item with
  | Returned item => (addItem v item, Returned ())
  | Threw err => (v, Threw err)
  end.

Definition handleNamedSetOfFilesEvent (v : BuildEventProtocolView)
  (e : BazelBuildEvent) : BuildEventProtocolView :=
  with_state v (handleNamedSetOfFiles (state v) e).

Definition handleTargetConfiguredEvent (v : BuildEventProtocolView)
  (e : BazelBuildEvent) : BuildEventProtocolView :=
  with_state v (handleTargetConfigured (state v) e).

Definition handleActionExecutedEventSuccess (v : BuildEventProtocolView)
  (e : BazelBuildEvent) (action : ActionExecuted) : BuildEventProtocolView :=
  let item := ActionSuccessItem e in
  match Array_get_last (items v) with
  | Some last =>
      if is_ActionSuccessItem last then replaceLastItem v item else addItem v item
  | None => addItem v item
  end.

Definition handleActionExecutedEvent (v : BuildEventProtocolView)
  (e : BazelBuildEvent) (action : ActionExecuted) : BuildEventProtocolView :=
  if truthy_bool (action_success action)
  then handleActionExecutedEventSuccess v e action
  else addItem v (ActionFailedItem_new e).

(** [status === 'PASSED'] *)
Definition status_is (name : string) (status : option EnumValue) : bool :=
  match status with
  | Some (EnumName s) => String.eqb s name
  | _ => false
  end.

Definition handleTestResultEvent (v : BuildEventProtocolView)
  (e : BazelBuildEvent) (test : TestResult) : BuildEventProtocolView :=
  if status_is "PASSED" (tr_status test) then
    {| items := items v; testsPassed := testsPassed v ++ [test];
       state := state v;
       problemCollector_started := problemCollector_started v |}
  else addItem v (TestResultFailedItem e).

(** Dispatch on the payload; other payloads are skipped. *)
Definition handleBazelBuildEvent (v : BuildEventProtocolView) (e : BazelBuildEvent)
  : BuildEventProtocolView * Outcome () :=
  match bes_payload e with
  | PStarted started => (handleStartedEvent v e started, Returned ())
  | PWorkspaceInfo info => (handleWorkspaceInfoEvent v e info, Returned ())
  | PAction action => (handleActionExecutedEvent v e action, Returned ())
  | PNamedSetOfFiles _ => (handleNamedSetOfFilesEvent v e, Returned ())
  | PConfigured _ => (handleTargetConfiguredEvent v e, Returned ())
  | PCompleted completed => (handleCompletedEvent v e completed, Returned ())
  | PFinished finished => handleFinishedEvent v e finished
  | PTestResult test => (handleTestResultEvent v e test, Returned ())
  | POther _ => (v, Returned ())
  end.

(** The view after the emitter has delivered the events [es] in order. *)
Definition processEvents (v : BuildEventProtocolView) (es : list BazelBuildEvent)
  : BuildEventProtocolView :=
  foldl (λ v e, (handleBazelBuildEvent v e).1) v es.

(** ** Icons and primary output files *)

(** An icon is a theme icon, by its id, or the URI of an image. *)
Inductive Icon :=
  | ThemeIcon (id : string)
  | UriIcon (uri : string).

(** [s.endsWith(suffix)] *)
Definition String_endsWith (s suffix : string) : bool :=
  let n := String.length s in
  let m := String.length suffix in
  (m <=? n) && String.eqb (String.substring (n - m) m s) suffix.

Definition getTargetIcon (st : BuildEventState) (event : BazelBuildEvent)
  (completed : TargetComplete) : Icon :=
  if negb (truthy_bool (tc_success completed)) then ThemeIcon "stop"
  else
    match getTargetKind st event with
    | Some kind =>
        if String_endsWith kind " rule" then
          let kind := String.substring 0 (String.length kind - 5) kind in
          UriIcon ("https://results.bzl.io/v1/image/rule/" +:+ kind +:+ ".svg")
        else ThemeIcon "symbol-interface"
    | None => ThemeIcon "symbol-interface"
    end.

(** [createWorkspace]: the working directory of the build that started. *)
Definition createWorkspace (st : BuildEventState) : option string :=
  started st ?. workingDirectory.

(** [ActionExecutedItem.getPrimaryOutputFile] *)
Definition ActionExecutedItem_getPrimaryOutputFile (event : BazelBuildEvent)
  : option File :=
  match bes_action event ?. action_stderr with
  | Some stderr => Some stderr
  | None => bes_action event ?. action_stdout
  end.

(** The loop of [TestResultFailedItem.getPrimaryOutputFile]. *)
Fixpoint first_named (name : string) (files : list File) : option File :=
  match files with
  | [] => None
  | file :: rest =>
      if String.eqb (file_name file) name then Some file
      else first_named name rest
  end.

(** [TestResultFailedItem.getPrimaryOutputFile]: the loop runs over
    [testActionOutput!], and [for ... of] over [undefined] throws. *)
Definition TestResultFailedItem_getPrimaryOutputFile (event : BazelBuildEvent)
  : Outcome (option File) :=
  match bes_testResult event ?. tr_testActionOutput with
  | None => Threw (TypeError "undefined is not iterable")
  | Some files => Returned (first_named "test.log" files)
  end.

(** [TargetCompleteItem.getPrimaryOutputFile]: the first important output. *)
Definition TargetCompleteItem_getPrimaryOutputFile (event : BazelBuildEvent)
  : option File :=
  match default [] (bes_completed event ?. tc_importantOutput) with
  | [] => None
  | file :: _ => Some file
  end.

(** [item.getPrimaryOutputFile()], by the class of the item. *)
Definition getPrimaryOutputFile (item : BazelBuildEventItem) : Outcome (option File) :=
  match item with
  | ActionFailedItem event _ | ActionSuccessItem event =>
      Returned (ActionExecutedItem_getPrimaryOutputFile event)
  | TestResultFailedItem event => TestResultFailedItem_getPrimaryOutputFile event
  | TargetCompleteItem event _ _ =>
      Returned (TargetCompleteItem_getPrimaryOutputFile event)
  | _ => Returned None
  end.

(** [ProblemFileItem.getChildren]: one marker item per marker. *)
Definition ProblemFileItem_getChildren (event : BazelBuildEvent) (uri : Uri)
  (markers : list IMarker) : list BazelBuildEventItem :=
  map (FileMarkerItem event uri) markers.

(** ** Labels (configuration.ts)

    [String.prototype.split] with a separator that is not empty: the string
    is scanned from the left; where the separator matches, the piece read
    so far is cut off and the scan goes on behind the separator; the rest
    is the last piece.  Every step of the scan takes at least one
    character, so a fuel of one more than the length of the string is never
    used up. *)

(** [s] without the prefix [p], when it begins with it. *)
Fixpoint strip_prefix (p s : string) : option string :=
  match p with
  | EmptyString => Some s
  | String a p' =>
      match s with
      | String b s' => if Ascii.eqb a b then strip_prefix p' s' else None
      | EmptyString => None
      end
  end.

Fixpoint split_scan (fuel : nat) (sep cur s : string) : list string :=
  match fuel with
  | O => [cur +:+ s]
  | S fuel' =>
      match strip_prefix sep s with
      | Some rest => cur :: split_scan fuel' sep "" rest
      | None =>
          match s with
          | EmptyString => [cur]
          | String c s' => split_scan fuel' sep (cur +:+ String c "") s'
          end
      end
  end.

Definition String_split (sep s : string) : list string :=
  split_scan (S (String.length s)) sep "" s.

Record LabelParts := {
  lp_ws : string;
  lp_pkg : string;
  lp_target : string;
}.

Definition splitLabel (label : string) : option LabelParts :=
  if String.eqb label "" then None
  else
    match String_split "//" label with
    | [h0; h1] =>
        let ws := if String.eqb h0 "" then "@" else h0 in
        match String_split ":" h1 with
        | [pkg; target] =>
            Some {| lp_ws := ws; lp_pkg := pkg; lp_target := target |}
        | _ => None
        end
    | _ => None
    end.

(** * Properties *)

(** ** Loops and resolution: general facts *)

Lemma for_of_unchanged {A S} (body : A → S → option S) (xs : list A) (s : S) :
  (∀ x, x ∈ xs → ∀ s', body x s' = Some s') →
  for_of body xs s = Some s.
Proof.
  induction xs as [|x xs IH]; intros Hbody; simpl; [done|].
  rewrite Hbody by apply list_elem_of_here. simpl.
  apply IH. intros y Hy. apply Hbody. by apply list_elem_of_further.
Qed.

Lemma for_of_skip {A S} (body : A → S → option S) (x : A) (before after : list A)
  (s : S) :
  (∀ s', body x s' = Some s') →
  for_of body (before ++ x :: after) s = for_of body (before ++ after) s.
Proof.
  intros Hx. revert s.
  induction before as [|y before IH]; intros s; simpl.
  - by rewrite Hx.
  - destruct (body y s) as [s1|]; simpl; [apply IH|done].
Qed.

Lemma for_of_mono {A S} (body body' : A → S → option S) (xs : list A) :
  (∀ x s r, x ∈ xs → body x s = Some r → body' x s = Some r) →
  ∀ s r, for_of body xs s = Some r → for_of body' xs s = Some r.
Proof.
  induction xs as [|x xs IH]; intros Hle s r; simpl; [done|].
  destruct (body x s) as [s1|] eqn:Hb; simpl; [|done].
  intros Hrest.
  rewrite (Hle x s s1) by (done || apply list_elem_of_here). simpl.
  apply IH; [|done].
  intros y s' r' Hy. apply Hle. by apply list_elem_of_further.
Qed.

Lemma for_of_total {A S} (body : A → S → option S) (xs : list A) :
  (∀ x s, x ∈ xs → is_Some (body x s)) →
  ∀ s, is_Some (for_of body xs s).
Proof.
  induction xs as [|x xs IH]; intros Hbody s; simpl; [by eexists|].
  destruct (Hbody x s) as [s1 Hs1]; [apply list_elem_of_here|].
  rewrite Hs1. simpl. apply IH.
  intros y s' Hy. apply Hbody. by apply list_elem_of_further.
Qed.

(** One step of the recursion. *)
Lemma collectFilesFromFileSetIds_S (fuel : nat) (st : BuildEventState)
  (ids : list NamedSetOfFilesId) (files : list File) :
  collectFilesFromFileSetIds (S fuel) st (Some ids) files
  = for_of (λ id, collectFilesFromFileSetId st
                    (collectFilesFromFileSetIds fuel st) (Some id))
           ids files.
Proof. reflexivity. Qed.

(** More fuel does not change a result that was already reached. *)
Lemma collectFilesFromFileSetIds_mono (fuel fuel' : nat) (st : BuildEventState) :
  fuel ≤ fuel' →
  ∀ ids files r,
    collectFilesFromFileSetIds fuel st ids files = Some r →
    collectFilesFromFileSetIds fuel' st ids files = Some r.
Proof.
  revert fuel'.
  induction fuel as [|fuel IH]; intros fuel' Hle ids files r; simpl; [done|].
  destruct fuel' as [|fuel']; [lia|]. simpl.
  destruct ids as [ids|]; [|done].
  apply for_of_mono. clear files r.
  intros id files r _. unfold collectFilesFromFileSetId, collectFilesFromFileSet.
  destruct (Map_get (fileSets st) (nsid_id id)) as [fs|]; [|done].
  apply IH. lia.
Qed.

(** An id that is not in the map contributes nothing, whatever the
    recursive call would do. *)
Lemma collectFilesFromFileSetId_absent (st : BuildEventState)
  (collectIds : option (list NamedSetOfFilesId) → list File → option (list File))
  (id : NamedSetOfFilesId) (files : list File) :
  fileSets st !! nsid_id id = None →
  collectFilesFromFileSetId st collectIds (Some id) files = Some files.
Proof.
  intros Habs. unfold collectFilesFromFileSetId, Map_get. by rewrite Habs.
Qed.

(** ** Sample data for the concrete instances below *)

Definition file1 : File :=
  {| file_ref := 1; file_name := "bazel-out/bin/app/lib.a";
     file_uri := Some "file:///out/bin/app/lib.a"; file_contents := None |}.

Definition file2 : File :=
  {| file_ref := 2; file_name := "bazel-out/bin/app/lib.so";
     file_uri := Some "file:///out/bin/app/lib.so"; file_contents := None |}.

Definition file3 : File :=
  {| file_ref := 3; file_name := "bazel-out/bin/app/dep.a";
     file_uri := None; file_contents := None |}.

Definition idA : NamedSetOfFilesId := {| nsid_id := Some "A" |}.
Definition idB : NamedSetOfFilesId := {| nsid_id := Some "B" |}.

(** [namedSetOfFiles] event defining set "A" with the files f1 and f2. *)
Definition event_setA : BazelBuildEvent :=
  {| obe_sequenceNumber := 4;
     bes_id := Some (IdNamedSet idA);
     bes_payload := PNamedSetOfFiles
       {| nsf_files := Some [file1; file2]; nsf_fileSets := None |} |}.

(** A second definition of set "A", with f3 only. *)
Definition event_setA' : BazelBuildEvent :=
  {| obe_sequenceNumber := 5;
     bes_id := Some (IdNamedSet idA);
     bes_payload := PNamedSetOfFiles
       {| nsf_files := Some [file3]; nsf_fileSets := Some [] |} |}.

Definition event_configured : BazelBuildEvent :=
  {| obe_sequenceNumber := 3;
     bes_id := Some (IdTargetConfigured (Some "//app:lib"));
     bes_payload := PConfigured {| targetKind := Some "cc_library rule" |} |}.

(** [completed] event of //app:lib with one output group that refers to
    the file set "A". *)
Definition event_completed : BazelBuildEvent :=
  {| obe_sequenceNumber := 6;
     bes_id := Some (IdTargetCompleted (Some "//app:lib"));
     bes_payload := PCompleted
       {| tc_success := Some true;
          tc_outputGroup :=
            Some [ {| og_name := Some "default"; og_fileSets := Some [idA] |} ];
          tc_importantOutput := None;
          tc_failureDetail := None |} |}.

Definition build_started (start : option Long.t) : BuildStarted :=
  {| uuid := Some "b1f0"; startTimeMillis := start;
     buildToolVersion := Some "3.7.0"; optionsDescription := None;
     command := Some "build"; workingDirectory := Some "/work";
     workspaceDirectory := Some "/work" |}.

Definition event_started (start : option Long.t) : BazelBuildEvent :=
  {| obe_sequenceNumber := 1;
     bes_id := Some (IdOther "started");
     bes_payload := PStarted (build_started start) |}.

Definition event_finished (success : bool) (finish : option Long.t) : BazelBuildEvent :=
  {| obe_sequenceNumber := 9;
     bes_id := Some (IdOther "buildFinished");
     bes_payload := PFinished
       {| overallSuccess := Some success;
          exitCode := Some {| exit_name := Some (if success then "SUCCESS" else "BUILD_FAILURE");
                              exit_code := Some (if success then 0 else 1)%Z |};
          finishTimeMillis := finish |} |}.

Definition action_of (success : option bool) (stdout stderr : option File)
  : ActionExecuted :=
  {| action_success := success; action_exitCode := None;
     action_stdout := stdout; action_stderr := stderr;
     action_label := Some "//app:lib"; action_type := Some "CppCompile";
     action_commandLine := None |}.

Definition event_action (seq : Z) (success : option bool) : BazelBuildEvent :=
  {| obe_sequenceNumber := seq;
     bes_id := Some (IdOther "actionCompleted");
     bes_payload := PAction (action_of success None None) |}.

(** ** The state tracker *)

(** What [reset] does to each field: the file-set map and the two metadata
    fields are cleared, the map of configured targets is not touched. *)
Lemma reset_fields (st : BuildEventState) :
  fileSets (reset st) = ∅
  ∧ workspaceInfo (reset st) = None
  ∧ started (reset st) = None
  ∧ targetsConfigured (reset st) = targetsConfigured st.
Proof. by repeat split. Qed.

(** C3.  [reset()] is said to clear the file-set map, the target-configured
    map and the workspace and started metadata.  The code leaves the
    target-configured map as it is: after a [configured] event for
    //app:lib, [reset()] still holds the entry, so the state is not the
    empty one, and the [started] event of the next build (which calls
    [clear()] and so [reset()]) keeps it as well. *)
Theorem reset_keeps_targetsConfigured :
  let st := handleTargetConfigured BuildEventState_new event_configured in
  targetsConfigured (reset st) !! Some "//app:lib"
    = Some (Some {| targetKind := Some "cc_library rule" |})
  ∧ reset st ≠ BuildEventState_new
  ∧ getTargetKind
      (state (processEvents BuildEventProtocolView_new
                [event_configured; event_started (Some 1000%Z)]))
      event_completed
    = Some "cc_library rule".
Proof.
  split; [|split].
  - vm_compute. reflexivity.
  - intros Heq. apply (f_equal (λ s, targetsConfigured s !! Some "//app:lib")) in Heq.
    vm_compute in Heq. discriminate.
  - vm_compute. reflexivity.
Qed.

(** C9.  Resetting twice gives the same state as resetting once. *)
Theorem reset_idempotent (st : BuildEventState) :
  reset (reset st) = reset st.
Proof. reflexivity. Qed.

(** C10.  When two [namedSetOfFiles] events carry the same file-set id, the
    tracker is as if only the second had been handled: the map holds the
    second file set under that id, and resolving the id goes on with that
    definition. *)
Theorem handleNamedSetOfFiles_last_write_wins
  (st : BuildEventState) (e1 e2 : BazelBuildEvent) (id : NamedSetOfFilesId) :
  id_namedSet e1 ?. nsid_id = nsid_id id →
  id_namedSet e2 ?. nsid_id = nsid_id id →
  let st' := handleNamedSetOfFiles (handleNamedSetOfFiles st e1) e2 in
  st' = handleNamedSetOfFiles st e2
  ∧ fileSets st' !! nsid_id id = Some (bes_namedSetOfFiles e2)
  ∧ ∀ collectIds files,
      collectFilesFromFileSetId st' collectIds (Some id) files
      = collectFilesFromFileSet collectIds (bes_namedSetOfFiles e2) files.
Proof.
  intros H1 H2 st'. subst st'. unfold handleNamedSetOfFiles. simpl.
  rewrite H1, H2, insert_insert_eq. split; [done|]. split.
  - apply lookup_insert_eq.
  - intros collectIds files. unfold collectFilesFromFileSetId, Map_get. simpl.
    by rewrite lookup_insert_eq.
Qed.

Lemma handleNamedSetOfFiles_last_write_wins_witness :
  fileSets (handleNamedSetOfFiles
              (handleNamedSetOfFiles BuildEventState_new event_setA) event_setA')
    !! Some "A"
  = Some (Some {| nsf_files := Some [file3]; nsf_fileSets := Some [] |}).
Proof.
  exact (proj1 (proj2 (handleNamedSetOfFiles_last_write_wins
                         BuildEventState_new event_setA event_setA' idA
                         eq_refl eq_refl))).
Defined.

(** ** Resolution of file-set references *)

(** C7.  A [completed] event whose output groups refer only to file-set ids
    that are not in the map of the tracker.  Resolving such an id returns
    with the files collected so far unchanged, wherever the id stands in a
    list of ids, and the children of the completed-target item hold no file
    item: they are the empty list, or the failure detail when the event has
    one.  The resolution returns as soon as it may make one call. *)
Theorem unregistered_file_set_yields_no_children
  (st : BuildEventState) (event : BazelBuildEvent) (completed : TargetComplete)
  (fuel : nat) :
  bes_completed event = Some completed →
  (∀ group id,
     group ∈ default [] (tc_outputGroup completed) →
     id ∈ default [] (og_fileSets group) →
     fileSets st !! nsid_id id = None) →
  (∀ group id before after files,
     group ∈ default [] (tc_outputGroup completed) →
     id ∈ default [] (og_fileSets group) →
     collectFilesFromFileSetIds (S fuel) st (Some (before ++ id :: after)) files
     = collectFilesFromFileSetIds (S fuel) st (Some (before ++ after)) files
     ∧ collectFilesFromFileSetIds (S fuel) st (Some [id]) files = Some files)
  ∧ TargetCompleteItem_getChildren (S fuel) st event None
    = Some match tc_failureDetail completed with
           | Some detail => ([FailureDetailItem event detail], None)
           | None => ([], Some [])
           end.
Proof.
  intros Hc Habs. split.
  - intros group id before after files Hg Hid.
    pose proof (Habs group id Hg Hid) as Hnone.
    rewrite !collectFilesFromFileSetIds_S. split.
    + apply for_of_skip. intros files'.
      by apply collectFilesFromFileSetId_absent.
    + apply for_of_unchanged.
      intros id' Hid' files'. apply list_elem_of_singleton in Hid' as ->.
      by apply collectFilesFromFileSetId_absent.
  - unfold TargetCompleteItem_getChildren. rewrite Hc. simpl.
    destruct (tc_failureDetail completed) as [detail|]; [done|].
    rewrite for_of_unchanged; [done|].
    intros group Hg files.
    destruct (og_fileSets group) as [ids|] eqn:Hids; [|done].
    change (for_of (λ id, collectFilesFromFileSetId st
                            (collectFilesFromFileSetIds fuel st) (Some id))
                   ids files = Some files).
    apply for_of_unchanged. intros id Hid files'.
    apply collectFilesFromFileSetId_absent, (Habs group id Hg).
    by rewrite Hids.
Qed.

Lemma unregistered_file_set_yields_no_children_witness :
  TargetCompleteItem_getChildren 1 BuildEventState_new event_completed None
  = Some ([], Some []).
Proof.
  refine (proj2 (unregistered_file_set_yields_no_children
                   BuildEventState_new event_completed _ 0 eq_refl _)).
  intros group id _ _. apply lookup_empty.
Defined.

(** Adding two distinct objects to a set that is empty. *)
Lemma Set_add_two (f1 f2 : File) :
  file_ref f1 ≠ file_ref f2 →
  foldl Set_add [] [f1; f2] = [f1; f2].
Proof.
  intros Hne. simpl. unfold Set_add at 2. simpl.
  unfold Set_add, Set_has. simpl.
  rewrite bool_decide_eq_false_2; [done|].
  rewrite list_elem_of_singleton. congruence.
Qed.

(** C6.  From any view, a [namedSetOfFiles] event that defines a set with
    the two files f1 and f2 (two objects) and no nested sets, followed by a
    [completed] event without failure detail whose output group refers to
    the id of that set: the last item of the view is the completed-target
    item of the second event, and its children, resolved against the
    tracker of the view, are the file items of f1 and f2, and no others. *)
Theorem namedSetOfFiles_then_completed_children
  (v : BuildEventProtocolView) (eA eC : BazelBuildEvent)
  (fileSet : NamedSetOfFiles) (completed : TargetComplete)
  (group : OutputGroup) (id : NamedSetOfFilesId) (f1 f2 : File) (fuel : nat) :
  bes_payload eA = PNamedSetOfFiles fileSet →
  id_namedSet eA ?. nsid_id = nsid_id id →
  nsf_files fileSet = Some [f1; f2] →
  default [] (nsf_fileSets fileSet) = [] →
  file_ref f1 ≠ file_ref f2 →
  bes_payload eC = PCompleted completed →
  tc_failureDetail completed = None →
  tc_outputGroup completed = Some [group] →
  og_fileSets group = Some [id] →
  let v' := processEvents v [eA; eC] in
  (∃ label, last (getRootItems v') = Some (TargetCompleteItem eC label None))
  ∧ TargetCompleteItem_getChildren (S (S fuel)) (state v') eC None
    = Some ([FileItem eC f1; FileItem eC f2],
            Some [FileItem eC f1; FileItem eC f2]).
Proof.
  intros HpA Hkey Hfiles Hnested Hne HpC Hdetail Hgroups Hids v'. subst v'.
  unfold processEvents, handleBazelBuildEvent. simpl. rewrite HpA, HpC. simpl.
  split.
  - eexists. unfold getRootItems. simpl. by rewrite last_snoc.
  - unfold TargetCompleteItem_getChildren, bes_completed. rewrite HpC. simpl.
    rewrite Hdetail, Hgroups. simpl. rewrite Hids. simpl.
    unfold collectFilesFromFileSetId, Map_get, bes_namedSetOfFiles. simpl.
    rewrite Hkey, lookup_insert_eq, HpA. simpl.
    rewrite Hfiles.
    change (default [] (Some [f1; f2])) with [f1; f2].
    rewrite (Set_add_two f1 f2 Hne).
    destruct (nsf_fileSets fileSet) as [nested|]; simpl in *; [|done].
    by subst nested.
Qed.

Lemma namedSetOfFiles_then_completed_children_witness :
  TargetCompleteItem_getChildren 2
    (state (processEvents BuildEventProtocolView_new [event_setA; event_completed]))
    event_completed None
  = Some ([FileItem event_completed file1; FileItem event_completed file2],
          Some [FileItem event_completed file1; FileItem event_completed file2]).
Proof.
  refine (proj2 (namedSetOfFiles_then_completed_children
                   BuildEventProtocolView_new event_setA event_completed
                   _ _ _ idA file1 file2 0
                   eq_refl eq_refl eq_refl eq_refl _ eq_refl eq_refl eq_refl eq_refl)).
  simpl. lia.
Defined.

(** ** Cyclic references *)

(** A tracker in which the set "A" lists itself among its nested sets, as
    left by one [namedSetOfFiles] event. *)
Definition event_cyclic : BazelBuildEvent :=
  {| obe_sequenceNumber := 4;
     bes_id := Some (IdNamedSet idA);
     bes_payload := PNamedSetOfFiles
       {| nsf_files := Some [file1]; nsf_fileSets := Some [idA] |} |}.

Definition state_cyclic : BuildEventState :=
  handleNamedSetOfFiles BuildEventState_new event_cyclic.

Lemma state_cyclic_lookup :
  Map_get (fileSets state_cyclic) (Some "A")
  = Some {| nsf_files := Some [file1]; nsf_fileSets := Some [idA] |}.
Proof. vm_compute. reflexivity. Qed.

Lemma collect_cyclic_out_of_fuel (fuel : nat) (files : list File) :
  collectFilesFromFileSetIds fuel state_cyclic (Some [idA]) files = None.
Proof.
  revert files. induction fuel as [|fuel IH]; intros files; [done|].
  rewrite collectFilesFromFileSetIds_S.
  cbn [for_of]. unfold collectFilesFromFileSetId at 1.
  change (nsid_id idA) with (Some "A").
  rewrite state_cyclic_lookup.
  unfold collectFilesFromFileSet.
  cbn [nsf_fileSets nsf_files]. by rewrite IH.
Qed.

(** C4, counterexample.  With the set "A" referring to itself, resolving
    the id "A" does not return, whatever depth of recursion is allowed:
    nothing in the three functions remembers the ids already visited. *)
Lemma collectFilesFromFileSetIds_cycle_never_returns :
  ¬ ∃ fuel r, collectFilesFromFileSetIds fuel state_cyclic (Some [idA]) [] = Some r.
Proof.
  intros (fuel & r & Hr). by rewrite collect_cyclic_out_of_fuel in Hr.
Qed.

(** The references of a tracker are acyclic when the ids can be ranked so
    that every stored set ranks above the nested sets it resolves to. *)
Definition acyclic_by (st : BuildEventState) (rank : Key → nat) : Prop :=
  ∀ k fileSet id,
    Map_get (fileSets st) k = Some fileSet →
    id ∈ default [] (nsf_fileSets fileSet) →
    is_Some (Map_get (fileSets st) (nsid_id id)) →
    rank (nsid_id id) < rank k.

Lemma collect_returns_below_rank (st : BuildEventState) (rank : Key → nat) :
  acyclic_by st rank →
  ∀ n ids files,
    (∀ id, id ∈ default [] ids →
           is_Some (Map_get (fileSets st) (nsid_id id)) →
           rank (nsid_id id) < n) →
    is_Some (collectFilesFromFileSetIds (S n) st ids files).
Proof.
  intros Hacyc n. induction n as [|n IH]; intros ids files Hbound.
  - destruct ids as [ids|]; [|by eexists].
    rewrite collectFilesFromFileSetIds_S. apply for_of_total.
    intros id files' Hid. unfold collectFilesFromFileSetId, collectFilesFromFileSet.
    destruct (Map_get (fileSets st) (nsid_id id)) as [fs|] eqn:Hget; [|by eexists].
    specialize (Hbound id Hid). rewrite Hget in Hbound.
    assert (rank (nsid_id id) < 0) by (apply Hbound; by eexists). lia.
  - destruct ids as [ids|]; [|by eexists].
    rewrite collectFilesFromFileSetIds_S. apply for_of_total.
    intros id files' Hid. unfold collectFilesFromFileSetId, collectFilesFromFileSet.
    destruct (Map_get (fileSets st) (nsid_id id)) as [fs|] eqn:Hget; [|by eexists].
    apply IH. intros id' Hid' Hsome.
    assert (rank (nsid_id id) < S n).
    { apply (Hbound id Hid). rewrite Hget. by eexists. }
    pose proof (Hacyc _ _ _ Hget Hid' Hsome). lia.
Qed.

(** C4, as the code has it.  When the file sets stored in the tracker refer
    to each other without a cycle, [collectFilesFromFileSetIds] returns on
    every list of ids and every set of files collected so far: some depth
    of recursion is enough, and any larger depth gives the same result. *)
Theorem collectFilesFromFileSetIds_returns_when_acyclic
  (st : BuildEventState) (rank : Key → nat)
  (ids : option (list NamedSetOfFilesId)) (files : list File) :
  acyclic_by st rank →
  ∃ fuel r, ∀ fuel', fuel ≤ fuel' →
    collectFilesFromFileSetIds fuel' st ids files = Some r.
Proof.
  intros Hacyc.
  set (n := S (max_list ((rank ∘ nsid_id) <$> default [] ids))).
  destruct (collect_returns_below_rank st rank Hacyc n ids files) as [r Hr].
  - intros id Hid _. subst n.
    assert (rank (nsid_id id) ≤ max_list ((rank ∘ nsid_id) <$> default [] ids)); [|lia].
    apply max_list_elem_of_le, list_elem_of_fmap. by exists id.
  - exists (S n), r. intros fuel' Hle.
    by apply (collectFilesFromFileSetIds_mono (S n) fuel' st Hle).
Qed.

(** An acyclic tracker: "A" holds f1 and f2 and nests "B", "B" holds f3. *)
Definition state_nested : BuildEventState :=
  {| fileSets :=
       {[ Some "A" := Some {| nsf_files := Some [file1; file2];
                              nsf_fileSets := Some [idB] |};
          Some "B" := Some {| nsf_files := Some [file3];
                              nsf_fileSets := None |} ]};
     targetsConfigured := ∅; workspaceInfo := None; started := None |}.

Definition rank_nested (k : Key) : nat :=
  if bool_decide (k = Some "A") then 1 else 0.

Lemma state_nested_acyclic : acyclic_by state_nested rank_nested.
Proof.
  intros k fileSet id Hget Hid Hsome. unfold Map_get, state_nested in *. simpl in *.
  destruct (decide (k = Some "A")) as [->|HkA].
  - rewrite lookup_insert_eq in Hget. simpl in Hget. injection Hget as <-.
    simpl in Hid. apply list_elem_of_singleton in Hid as ->. vm_compute. lia.
  - rewrite lookup_insert_ne in Hget by done.
    destruct (decide (k = Some "B")) as [->|HkB].
    + rewrite lookup_singleton_eq in Hget. simpl in Hget. injection Hget as <-.
      simpl in Hid. by apply elem_of_nil in Hid.
    + rewrite lookup_singleton_ne in Hget by done. done.
Qed.

Lemma collectFilesFromFileSetIds_returns_when_acyclic_witness :
  acyclic_by state_nested rank_nested
  ∧ ∃ fuel r, ∀ fuel', fuel ≤ fuel' →
      collectFilesFromFileSetIds fuel' state_nested (Some [idA]) [] = Some r.
Proof.
  split; [exact state_nested_acyclic|].
  exact (collectFilesFromFileSetIds_returns_when_acyclic
           state_nested rank_nested (Some [idA]) [] state_nested_acyclic).
Defined.

Example collect_nested :
  collectFilesFromFileSetIds 3 state_nested (Some [idA]) []
  = Some [file1; file2; file3].
Proof. vm_compute. reflexivity. Qed.

(** ** The finished item *)

Lemma Long_wrap_id (z : Z) :
  (- 2 ^ 63 ≤ z < 2 ^ 63)%Z → Long.wrap z = z.
Proof.
  intros Hz. unfold Long.wrap.
  rewrite Z.mod_small by lia. lia.
Qed.

(** With both timestamps present the constructor returns, and the label
    ends with the difference of the two in parentheses.  For timestamps and
    a difference within 64 bits the difference is the exact one. *)
Lemma BuildFinishedItem_new_present (event : BazelBuildEvent)
  (finished : BuildFinished) (started : BuildStarted) (finish start : Z) :
  bes_payload event = PFinished finished →
  finishTimeMillis finished = Some finish →
  startTimeMillis started = Some start →
  (- 2 ^ 63 ≤ finish < 2 ^ 63)%Z →
  (- 2 ^ 63 ≤ start < 2 ^ 63)%Z →
  (- 2 ^ 63 ≤ finish - start < 2 ^ 63)%Z →
  BuildFinishedItem_new event (Some started)
  = Returned (Some (finish - start)%Z,
              template (exitCode finished ?. exit_name)
                +:+ " " +:+ "(" +:+ pretty (finish - start)%Z +:+ "ms)").
Proof.
  intros Hp Hf Hs Hfr Hsr Hdr.
  unfold BuildFinishedItem_new, bes_finished. rewrite Hp. simpl.
  rewrite Hf, Hs. simpl. unfold Long.sub, Long.toString.
  by rewrite !Long_wrap_id by (rewrite ?Long_wrap_id by done; done).
Qed.

(** With a timestamp missing the constructor throws: [Long.fromValue] is
    called on [undefined] before the [try] block is entered. *)
Lemma BuildFinishedItem_new_missing (event : BazelBuildEvent)
  (started : option BuildStarted) :
  bes_finished event ?. finishTimeMillis = None
  ∨ started ?. startTimeMillis = None →
  ∃ err, BuildFinishedItem_new event started = Threw err.
Proof.
  unfold BuildFinishedItem_new. intros [-> | Hs]; simpl; [by eexists|].
  destruct (bes_finished event ?. finishTimeMillis); simpl; [|by eexists].
  rewrite Hs. by eexists.
Qed.

(** C5.  Start 1000 ms and finish 2500 ms give the label
    "SUCCESS (1500ms)".  With the start timestamp missing (no [started]
    event seen, or one without the field), or with the finish timestamp
    missing, the construction is said not to fail and to leave the
    parenthetical out; the constructor throws a [TypeError] instead, and no
    item and no label come out of it. *)
Theorem BuildFinishedItem_new_timestamps :
  BuildFinishedItem_new (event_finished true (Some 2500%Z))
    (Some (build_started (Some 1000%Z)))
  = Returned (Some 1500%Z, "SUCCESS (1500ms)")
  ∧ BuildFinishedItem_new (event_finished true (Some 2500%Z)) None
    = Threw (TypeError "Cannot read property 'low' of undefined")
  ∧ BuildFinishedItem_new (event_finished true (Some 2500%Z))
      (Some (build_started None))
    = Threw (TypeError "Cannot read property 'low' of undefined")
  ∧ BuildFinishedItem_new (event_finished true None)
      (Some (build_started (Some 1000%Z)))
    = Threw (TypeError "Cannot read property 'low' of undefined").
Proof. repeat split; vm_compute; reflexivity. Qed.

(** ** Filtering at the end of a build *)

Lemma BuildSuccessItem_new_attention event started item :
  BuildSuccessItem_new event started = Returned item →
  attention item = true ∧ is_ActionSuccessItem item = false
  ∧ ∃ delta label, item = BuildSuccessItem event delta label.
Proof.
  unfold BuildSuccessItem_new.
  destruct (BuildFinishedItem_new event started) as [[delta label]|]; simpl; [|done].
  intros [= <-]. eauto.
Qed.

Lemma BuildFailedItem_new_attention event started item :
  BuildFailedItem_new event started = Returned item →
  attention item = true ∧ is_ActionSuccessItem item = false
  ∧ ∃ delta label, item = BuildFailedItem event delta label.
Proof.
  unfold BuildFailedItem_new.
  destruct (BuildFinishedItem_new event started) as [[delta label]|]; simpl; [|done].
  intros [= <-]. eauto.
Qed.

Lemma filter_attention_Forall (l : list BazelBuildEventItem) :
  Forall (λ item, attention item = true) (List.filter attention l).
Proof.
  induction l as [|x l IH]; simpl; [constructor|].
  destruct (attention x) eqn:Hx; [by constructor|done].
Qed.

(** Whether or not the terminal item could be built, every item left in
    the list after a [finished] event asks for attention. *)
Lemma handleFinishedEvent_all_attention (v : BuildEventProtocolView)
  (e : BazelBuildEvent) (finished : BuildFinished) :
  Forall (λ item, attention item = true)
         (getRootItems (handleFinishedEvent v e finished).1).
Proof.
  unfold handleFinishedEvent, getRootItems.
  destruct (truthy_bool (overallSuccess finished)).
  - destruct (BuildSuccessItem_new _ _) as [item|] eqn:Hitem; simpl.
    + apply Forall_app. split; [apply filter_attention_Forall|].
      constructor; [|constructor].
      by apply BuildSuccessItem_new_attention in Hitem as [? _].
    + apply filter_attention_Forall.
  - destruct (BuildFailedItem_new _ _) as [item|] eqn:Hitem; simpl.
    + apply Forall_app. split; [apply filter_attention_Forall|].
      constructor; [|constructor].
      by apply BuildFailedItem_new_attention in Hitem as [? _].
    + apply filter_attention_Forall.
Qed.

(** When both timestamps are there, the handler returns and the list is the
    attention items followed by the terminal item, a success item exactly
    when [overallSuccess] is set. *)
Lemma handleFinishedEvent_appends (v : BuildEventProtocolView)
  (e : BazelBuildEvent) (finished : BuildFinished) (finish start : Z) :
  bes_finished e ?. finishTimeMillis = Some finish →
  started (state v) ?. startTimeMillis = Some start →
  ∃ delta label,
    handleFinishedEvent v e finished
    = (addItem (with_items v (Array_filter attention (items v)))
         (if truthy_bool (overallSuccess finished)
          then BuildSuccessItem e delta label
          else BuildFailedItem e delta label),
       Returned ())
    ∧ getRootItems (handleFinishedEvent v e finished).1
      = List.filter attention (getRootItems v)
          ++ [if truthy_bool (overallSuccess finished)
              then BuildSuccessItem e delta label
              else BuildFailedItem e delta label].
Proof.
  intros Hf Hs.
  unfold handleFinishedEvent, BuildSuccessItem_new, BuildFailedItem_new,
    BuildFinishedItem_new. simpl. rewrite Hf, Hs. simpl.
  destruct (truthy_bool (overallSuccess finished)); simpl; eauto.
Qed.

(** A list that begins with the started item keeps it as its head through
    every event; a [started] event puts a new one there. *)
Definition begins_with_started (l : list BazelBuildEventItem) : Prop :=
  ∃ e rest, l = BuildStartedItem e :: rest.

Lemma Array_get_last_cons (x : BazelBuildEventItem) (l : list BazelBuildEventItem)
  (p : option BazelBuildEventItem) :
  Array_get_last {| elems := x :: l; prop_m1 := p |} = last (x :: l).
Proof.
  unfold Array_get_last. cbn [elems]. rewrite last_lookup.
  f_equal. simpl. lia.
Qed.

Lemma Array_set_last_snoc (l : list BazelBuildEventItem)
  (x item : BazelBuildEventItem) (p : option BazelBuildEventItem) :
  Array_set_last {| elems := l ++ [x]; prop_m1 := p |} item
  = {| elems := l ++ [item]; prop_m1 := p |}.
Proof.
  unfold Array_set_last. cbn [elems prop_m1].
  destruct (l ++ [x]) as [|y l'] eqn:Hl; [by destruct l|].
  rewrite <- Hl. f_equal.
  rewrite length_app. simpl.
  replace (length l + 1 - 1) with (length l + 0) by lia.
  by rewrite insert_app_r.
Qed.

Lemma begins_with_started_snoc l item :
  begins_with_started l → begins_with_started (l ++ [item]).
Proof. intros (e & rest & ->). by exists e, (rest ++ [item]). Qed.

Lemma begins_with_started_filter l :
  begins_with_started l → begins_with_started (List.filter attention l).
Proof. intros (e & rest & ->). simpl. by eexists _, _. Qed.

Lemma handleActionExecutedEventSuccess_started_head v e action :
  begins_with_started (getRootItems v) →
  begins_with_started (getRootItems (handleActionExecutedEventSuccess v e action)).
Proof.
  unfold getRootItems. destruct v as [[l p] tests st pc]. simpl.
  intros (e0 & rest & ->).
  unfold handleActionExecutedEventSuccess. cbn [items].
  rewrite Array_get_last_cons.
  destruct (last (BuildStartedItem e0 :: rest)) as [x|] eqn:Hlast;
    [|by eexists _, _].
  destruct (is_ActionSuccessItem x) eqn:Hx; [|by eexists _, _].
  destruct rest as [|y rest' _] using rev_ind.
  - simpl in Hlast. injection Hlast as <-. done.
  - unfold replaceLastItem, with_items. cbn [items elems].
    rewrite app_comm_cons, Array_set_last_snoc. by eexists _, _.
Qed.

Lemma handleBazelBuildEvent_started_head v e :
  begins_with_started (getRootItems v) →
  begins_with_started (getRootItems (handleBazelBuildEvent v e).1).
Proof.
  intros Hv. unfold handleBazelBuildEvent.
  destruct (bes_payload e) as [s|i|a|f|c|c|f|t|k]; cbn [fst]; try done.
  - by eexists _, _.
  - unfold handleActionExecutedEvent. destruct (truthy_bool _).
    + by apply handleActionExecutedEventSuccess_started_head.
    + by apply begins_with_started_snoc.
  - by apply begins_with_started_snoc.
  - unfold handleFinishedEvent.
    destruct (if truthy_bool _ then _ else _); cbn [fst].
    + by apply begins_with_started_snoc, begins_with_started_filter.
    + by apply begins_with_started_filter.
  - unfold handleTestResultEvent.
    destruct (status_is _ _); [done|]. by apply begins_with_started_snoc.
Qed.

(** In a session that began with a [started] event the started item is the
    first item of the list after every later event, [finished] included. *)
Lemma processEvents_started_head v e0 started0 es :
  bes_payload e0 = PStarted started0 →
  begins_with_started (getRootItems (processEvents v (e0 :: es))).
Proof.
  intros Hp. unfold processEvents. simpl.
  assert (Hhead : begins_with_started (getRootItems (handleBazelBuildEvent v e0).1)).
  { unfold handleBazelBuildEvent. rewrite Hp. by eexists _, _. }
  revert Hhead. generalize (handleBazelBuildEvent v e0).1.
  induction es as [|e es IH]; intros w Hw; simpl; [done|].
  by apply IH, handleBazelBuildEvent_started_head.
Qed.

(** C1.  After a [finished] event the list is said to hold attention items
    only, with the terminal finished item appended last and the started
    item kept.  The filtering and the started item are as stated
    ([handleFinishedEvent_all_attention], [processEvents_started_head]),
    and so is the terminal item when both timestamps are present
    ([handleFinishedEvent_appends]).  In a session whose [started] event
    carries no start time, the constructor of the terminal item throws
    after the list has been filtered: the handler ends with a [TypeError]
    and the list holds the started item alone, with no finished item. *)
Theorem handleFinishedEvent_without_start_time :
  let v := processEvents BuildEventProtocolView_new
             [event_started None; event_action 2 (Some true)] in
  let r := handleBazelBuildEvent v (event_finished true (Some 2500%Z)) in
  r.2 = Threw (TypeError "Cannot read property 'low' of undefined")
  ∧ getRootItems r.1 = [BuildStartedItem (event_started None)]
  ∧ existsb is_BuildFinishedItem (getRootItems r.1) = false.
Proof. repeat split; vm_compute; reflexivity. Qed.

(** ** Collapsing successful actions *)

(** An [action] event with [success] set. *)
Definition is_success_action (e : BazelBuildEvent) : bool :=
  match bes_payload e with
  | PAction action => truthy_bool (action_success action)
  | _ => false
  end.

(** Two successful-action items next to each other somewhere in the list. *)
Fixpoint consecutive_success (l : list BazelBuildEventItem) : bool :=
  match l with
  | a :: (b :: _) as rest =>
      (is_ActionSuccessItem a && is_ActionSuccessItem b) || consecutive_success rest
  | _ => false
  end.

Definition last_is_success (l : list BazelBuildEventItem) : bool :=
  match last l with
  | Some item => is_ActionSuccessItem item
  | None => false
  end.

Lemma consecutive_success_snoc l item :
  consecutive_success (l ++ [item])
  = consecutive_success l || (last_is_success l && is_ActionSuccessItem item).
Proof.
  induction l as [|a [|b rest] IH].
  - done.
  - unfold last_is_success. simpl. by destruct (is_ActionSuccessItem a), (is_ActionSuccessItem item).
  - change (consecutive_success ((a :: b :: rest) ++ [item]))
      with ((is_ActionSuccessItem a && is_ActionSuccessItem b)
            || consecutive_success ((b :: rest) ++ [item])).
    rewrite IH.
    change (consecutive_success (a :: b :: rest))
      with ((is_ActionSuccessItem a && is_ActionSuccessItem b)
            || consecutive_success (b :: rest)).
    change (last_is_success (a :: b :: rest)) with (last_is_success (b :: rest)).
    by rewrite orb_assoc.
Qed.

Lemma consecutive_success_none l :
  Forall (λ item, is_ActionSuccessItem item = false) l →
  consecutive_success l = false.
Proof.
  induction 1 as [|a l Ha Hl IH]; [done|].
  destruct l as [|b rest]; [done|].
  change (consecutive_success (a :: b :: rest))
    with ((is_ActionSuccessItem a && is_ActionSuccessItem b)
          || consecutive_success (b :: rest)).
  by rewrite Ha, IH.
Qed.

Lemma filter_attention_no_success l :
  Forall (λ item, is_ActionSuccessItem item = false) (List.filter attention l).
Proof.
  eapply Forall_impl; [apply filter_attention_Forall|].
  intros item. by destruct item.
Qed.

Lemma last_is_success_filter l :
  last_is_success (List.filter attention l) = false.
Proof.
  unfold last_is_success.
  destruct (last (List.filter attention l)) as [item|] eqn:Hlast; [|done].
  apply last_Some_elem_of in Hlast.
  pose proof (filter_attention_no_success l) as Hall.
  rewrite Forall_forall in Hall. by apply Hall.
Qed.

Lemma addItem_other_no_consecutive v item :
  is_ActionSuccessItem item = false →
  consecutive_success (getRootItems v) = false →
  consecutive_success (getRootItems (addItem v item)) = false.
Proof.
  intros Hitem Hv. unfold getRootItems, addItem in *. simpl.
  by rewrite consecutive_success_snoc, Hv, Hitem, andb_false_r.
Qed.

(** What the success handler does to the displayed list: the last item is
    overwritten when it is a successful-action item, and the new item is
    appended otherwise (on an empty array the item read at index -1 is the
    stray property, and overwriting it leaves the list empty). *)
Lemma handleActionExecutedEventSuccess_elems v e action :
  getRootItems (handleActionExecutedEventSuccess v e action)
  = match getRootItems v with
    | [] =>
        match prop_m1 (items v) with
        | Some p => if is_ActionSuccessItem p then [] else [ActionSuccessItem e]
        | None => [ActionSuccessItem e]
        end
    | _ :: _ =>
        if last_is_success (getRootItems v)
        then removelast (getRootItems v) ++ [ActionSuccessItem e]
        else getRootItems v ++ [ActionSuccessItem e]
    end.
Proof.
  unfold getRootItems. destruct v as [[l p] tests st pc]. cbn [items elems prop_m1].
  unfold handleActionExecutedEventSuccess. cbn [items].
  destruct l as [|x l].
  - unfold Array_get_last. cbn [elems prop_m1].
    destruct p as [p|]; [|done]. by destruct (is_ActionSuccessItem p).
  - rewrite Array_get_last_cons. unfold last_is_success.
    destruct (last (x :: l)) as [y|] eqn:Hlast; [|done].
    destruct (is_ActionSuccessItem y); [|done].
    apply last_Some in Hlast as [l' Hl']. rewrite Hl'.
    unfold replaceLastItem, with_items. cbn [items elems].
    rewrite Array_set_last_snoc. cbn [elems].
    by rewrite removelast_last.
Qed.

Lemma handleActionExecutedEventSuccess_no_consecutive v e action :
  consecutive_success (getRootItems v) = false →
  consecutive_success (getRootItems (handleActionExecutedEventSuccess v e action))
  = false.
Proof.
  intros Hv. rewrite handleActionExecutedEventSuccess_elems.
  destruct (getRootItems v) as [|x l].
  - destruct (prop_m1 (items v)) as [p|]; [|done].
    by destruct (is_ActionSuccessItem p).
  - destruct (last_is_success (x :: l)) eqn:Hlast.
    + unfold last_is_success in Hlast.
      destruct (last (x :: l)) as [y|] eqn:Hy; [|done].
      apply last_Some in Hy as [l' Hl']. rewrite Hl' in *.
      rewrite removelast_last.
      rewrite consecutive_success_snoc in Hv |- *.
      rewrite Hlast, andb_true_r in Hv. simpl. by rewrite andb_true_r.
    + by rewrite consecutive_success_snoc, Hv, Hlast.
Qed.

(** Every handler keeps the list free of two successful-action items in a
    row. *)
Lemma handleBazelBuildEvent_no_consecutive v e :
  consecutive_success (getRootItems v) = false →
  consecutive_success (getRootItems (handleBazelBuildEvent v e).1) = false.
Proof.
  intros Hv. unfold handleBazelBuildEvent.
  destruct (bes_payload e) as [s|i|a|f|c|c|f|t|k]; cbn [fst]; try done.
  - unfold handleActionExecutedEvent. destruct (truthy_bool _).
    + by apply handleActionExecutedEventSuccess_no_consecutive.
    + by apply addItem_other_no_consecutive.
  - by apply addItem_other_no_consecutive.
  - unfold handleFinishedEvent.
    assert (Hfiltered :
      consecutive_success
        (getRootItems (with_items v (Array_filter attention (items v)))) = false).
    { apply consecutive_success_none, filter_attention_no_success. }
    destruct (truthy_bool _).
    + destruct (BuildSuccessItem_new _ _) as [item|] eqn:Hitem; cbn [fst]; [|done].
      apply addItem_other_no_consecutive; [|done].
      by apply BuildSuccessItem_new_attention in Hitem as (_ & ? & _).
    + destruct (BuildFailedItem_new _ _) as [item|] eqn:Hitem; cbn [fst]; [|done].
      apply addItem_other_no_consecutive; [|done].
      by apply BuildFailedItem_new_attention in Hitem as (_ & ? & _).
  - unfold handleTestResultEvent.
    destruct (status_is _ _); [done|]. by apply addItem_other_no_consecutive.
Qed.

Lemma processEvents_no_consecutive v es :
  consecutive_success (getRootItems v) = false →
  consecutive_success (getRootItems (processEvents v es)) = false.
Proof.
  unfold processEvents. revert v.
  induction es as [|e es IH]; intros v Hv; simpl; [done|].
  by apply IH, handleBazelBuildEvent_no_consecutive.
Qed.

(** C2.  From a view whose list has no two successful-action items in a
    row (the new view, for one), after any sequence of [action] events with
    [success] set the list has none either; and when the list then ends
    with a successful-action item, a further such event overwrites that
    item: the list keeps its length and its other items.  (The first part
    does not depend on the events being successful actions.) *)
Theorem no_two_consecutive_ActionSuccessItems
  (v : BuildEventProtocolView) (es : list BazelBuildEvent) (e : BazelBuildEvent) :
  consecutive_success (getRootItems v) = false →
  Forall (λ e', is_success_action e' = true) (es ++ [e]) →
  let w := processEvents v es in
  consecutive_success (getRootItems w) = false
  ∧ consecutive_success (getRootItems (processEvents w [e])) = false
  ∧ ∀ l prev,
      getRootItems w = l ++ [ActionSuccessItem prev] →
      getRootItems (processEvents w [e]) = l ++ [ActionSuccessItem e]
      ∧ length (getRootItems (processEvents w [e])) = length (getRootItems w).
Proof.
  intros Hv Hes w. subst w.
  rewrite Forall_app, Forall_singleton in Hes. destruct Hes as [_ He].
  split; [by apply processEvents_no_consecutive|].
  split; [by apply processEvents_no_consecutive, processEvents_no_consecutive|].
  intros l prev Hl. generalize dependent (processEvents v es). intros w Hl.
  assert (Hgoal : getRootItems (processEvents w [e]) = l ++ [ActionSuccessItem e]).
  { unfold processEvents, handleBazelBuildEvent, is_success_action in *. simpl.
    destruct (bes_payload e) as [s|i|a|f|c|c|f|t|k]; try done. cbn [fst].
    unfold handleActionExecutedEvent. rewrite He.
    rewrite handleActionExecutedEventSuccess_elems, Hl.
    unfold last_is_success. rewrite last_snoc, removelast_last. simpl.
    by destruct l. }
  split; [done|]. rewrite Hgoal, Hl. by rewrite 2!length_app.
Qed.

Lemma no_two_consecutive_ActionSuccessItems_witness :
  getRootItems
    (processEvents
       (processEvents BuildEventProtocolView_new
          [event_action 2 (Some true); event_action 3 (Some true)])
       [event_action 4 (Some true)])
  = [] ++ [ActionSuccessItem (event_action 4 (Some true))].
Proof.
  refine (proj1 (proj2 (proj2 (no_two_consecutive_ActionSuccessItems
            BuildEventProtocolView_new
            [event_action 2 (Some true); event_action 3 (Some true)]
            (event_action 4 (Some true)) eq_refl _))
          [] (event_action 3 (Some true)) eq_refl)).
  repeat constructor.
Defined.

(** ** Problems of a failed action *)

Section ActionProblems.

Context {ProblemMatcher : Type}.
Context (registry_get : option string → option ProblemMatcher).
Context (readAndParse : ProblemMatcher → string → Outcome Problems).

(** For a failed action the problems are those of stderr when stderr is
    there, and those of stdout only when it is not. *)
Lemma actionProblems_stream (action : ActionExecuted) :
  truthy_bool (action_success action) = false →
  (∀ stderr, action_stderr action = Some stderr →
     actionProblems registry_get readAndParse action
     = fileProblems registry_get readAndParse (action_type action) stderr)
  ∧ (∀ stdout, action_stderr action = None → action_stdout action = Some stdout →
     actionProblems registry_get readAndParse action
     = fileProblems registry_get readAndParse (action_type action) stdout).
Proof.
  intros Hfail. unfold actionProblems. rewrite Hfail.
  split; [by intros stderr ->|by intros stdout -> ->].
Qed.

(** Without a matcher for the mnemonic there are no problems, and the item
    of the action becomes a leaf without children. *)
Lemma fileProblems_no_matcher (type : option string) (file : File) :
  registry_get type = None →
  fileProblems registry_get readAndParse type file = Returned None.
Proof. intros Hnone. unfold fileProblems. by rewrite Hnone. Qed.

Lemma ActionFailedItem_getChildren_no_matcher (event : BazelBuildEvent)
  (action : ActionExecuted) (collapsibleState : TreeItemCollapsibleState) :
  bes_action event = Some action →
  registry_get (action_type action) = None →
  ActionFailedItem_getChildren registry_get readAndParse event collapsibleState
  = Returned (None, CollapsibleNone).
Proof.
  intros He Hnone. unfold ActionFailedItem_getChildren, actionProblems. rewrite He.
  destruct (truthy_bool (action_success action)); [done|].
  destruct (action_stderr action) as [stderr|];
    [by rewrite fileProblems_no_matcher|].
  destruct (action_stdout action) as [stdout|]; [|done].
  by rewrite fileProblems_no_matcher.
Qed.

(** A file given by its URI is read and parsed with the matcher registered
    for the mnemonic. *)
Lemma fileProblems_uri (type : option string) (file : File)
  (matcher : ProblemMatcher) (uri : string) :
  registry_get type = Some matcher →
  truthy_contents (file_contents file) = false →
  file_uri file = Some uri →
  uri ≠ "" →
  fileProblems registry_get readAndParse type file
  = (problems ←! readAndParse matcher uri; Returned (Some problems)).
Proof.
  intros Hm Hc Hu Hne. unfold fileProblems, fileUriProblems.
  rewrite Hm, Hc, Hu. simpl.
  by destruct (String.eqb_spec uri "").
Qed.

(** A file given by its inline contents is handed to
    [fileContentProblems], which returns no problems and does not consult
    the matcher. *)
Lemma fileProblems_inline_contents (type : option string) (file : File) :
  truthy_contents (file_contents file) = true →
  fileProblems registry_get readAndParse type file = Returned None.
Proof.
  intros Hc. unfold fileProblems, fileContentProblems. rewrite Hc.
  by destruct (registry_get type).
Qed.

End ActionProblems.

(** A registry that knows the mnemonic "CppCompile", and an engine that
    reports one error for every file it is given. *)
Definition registry_cpp (type : option string) : option string :=
  match type with
  | Some "CppCompile" => Some "gcc"
  | _ => None
  end.

Definition marker_at (uri : string) : IMarker :=
  {| resource := Some uri; severity := Error;
     startLineNumber := 10; startColumn := 5;
     endLineNumber := 10; endColumn := 6;
     message := "missing semicolon" |}.

Definition parse_reports_one (matcher : string) (uri : string) : Outcome Problems :=
  Returned [(uri, [marker_at uri])].

Definition stderr_by_uri : File :=
  {| file_ref := 7; file_name := "stderr";
     file_uri := Some "file:///tmp/stderr-1"; file_contents := None |}.

Definition stderr_inline : File :=
  {| file_ref := 8; file_name := "stderr"; file_uri := None;
     file_contents := Some (ContentsString "lib.cc:10:5: error: missing semicolon") |}.

Definition event_failed_action (stderr : File) : BazelBuildEvent :=
  {| obe_sequenceNumber := 5;
     bes_id := Some (IdOther "actionCompleted");
     bes_payload := PAction (action_of None None (Some stderr)) |}.

(** C8.  The matcher is chosen by the mnemonic of the action and stderr is
    preferred to stdout ([actionProblems_stream]); without a matcher the
    item is a leaf ([ActionFailedItem_getChildren_no_matcher]); a stderr
    file given by URI is parsed ([fileProblems_uri]).  A stderr file that
    carries its text inline is said to be matched as well; the code hands
    it to [fileContentProblems], which returns [undefined] without running
    the matcher: with a matcher registered for "CppCompile" the failed
    action has no children and becomes a leaf, where the same output behind
    a URI gives a problem file. *)
Theorem failed_action_inline_stderr_not_matched :
  ActionFailedItem_getChildren registry_cpp parse_reports_one
    (event_failed_action stderr_inline) Expanded
  = Returned (None, CollapsibleNone)
  ∧ ActionFailedItem_getChildren registry_cpp parse_reports_one
      (event_failed_action stderr_by_uri) Expanded
    = Returned
        (Some [ProblemFileItem (event_failed_action stderr_by_uri)
                 "file:///tmp/stderr-1" [marker_at "file:///tmp/stderr-1"]],
         Expanded).
Proof. split; vm_compute; reflexivity. Qed.

(** * Further properties *)

(** ** What the resolution collects *)

Lemma Set_add_refs (files : list File) (f : File) (x : positive) :
  x ∈ file_ref <$> Set_add files f ↔ x ∈ file_ref <$> files ∨ x = file_ref f.
Proof.
  unfold Set_add, Set_has. case_bool_decide as Hin.
  - split; [by left|]. intros [?| ->]; done.
  - rewrite fmap_app, elem_of_app. simpl. by rewrite list_elem_of_singleton.
Qed.

Lemma foldl_Set_add_refs (new files : list File) (x : positive) :
  x ∈ file_ref <$> foldl Set_add files new
  ↔ x ∈ file_ref <$> files ∨ x ∈ file_ref <$> new.
Proof.
  revert files. induction new as [|f new IH]; intros files; simpl.
  - rewrite elem_of_nil. tauto.
  - rewrite IH, Set_add_refs, elem_of_cons. tauto.
Qed.

Lemma Set_add_prefix (files : list File) (f : File) :
  files `prefix_of` Set_add files f.
Proof.
  unfold Set_add. destruct (Set_has files f); [done|]. by apply prefix_app_r.
Qed.

Lemma foldl_Set_add_prefix (new files : list File) :
  files `prefix_of` foldl Set_add files new.
Proof.
  revert files. induction new as [|f new IH]; intros files; simpl; [done|].
  etrans; [apply Set_add_prefix|apply IH].
Qed.



(** A property of the set of files that every step of the resolution
    carries over holds of the result. *)
Lemma for_of_invariant {A S} (R : S → S → Prop) `{!Reflexive R, !Transitive R}
  (body : A → S → option S) (xs : list A) :
  (∀ x s s', x ∈ xs → body x s = Some s' → R s s') →
  ∀ s r, for_of body xs s = Some r → R s r.
Proof.
  induction xs as [|x xs IH]; intros Hbody s r; simpl.
  - by intros [= ->].
  - destruct (body x s) as [s1|] eqn:Hb; simpl; [|done]. intros Hrest.
    etrans; [apply (Hbody x s s1); [apply list_elem_of_here|done]|].
    apply IH; [|done]. intros y s2 s3 Hy. apply Hbody. by apply list_elem_of_further.
Qed.

Lemma collect_invariant (R : list File → list File → Prop)
  `{!Reflexive R, !Transitive R} :
  (∀ files new, R files (foldl Set_add files new)) →
  ∀ fuel st ids files r,
    collectFilesFromFileSetIds fuel st ids files = Some r → R files r.
Proof.
  intros Hadd fuel st. induction fuel as [|fuel IH]; intros ids files r; [done|].
  destruct ids as [ids|]; [|by intros [= ->]].
  rewrite collectFilesFromFileSetIds_S.
  apply for_of_invariant; [done..|]. clear files r.
  intros id files r _. unfold collectFilesFromFileSetId, collectFilesFromFileSet.
  destruct (Map_get (fileSets st) (nsid_id id)) as [fs|]; [|by intros [= ->]].
  intros Hr. etrans; [apply Hadd|]. by apply IH in Hr.
Qed.

(** X1.  The resolution only adds to the set it is given: when
    [collectFilesFromFileSetIds] returns, the files collected before the
    call are the first files of the result, in the same order. *)
Theorem collect_keeps_collected_files
  (fuel : nat) (st : BuildEventState) (ids : option (list NamedSetOfFilesId))
  (files r : list File) :
  collectFilesFromFileSetIds fuel st ids files = Some r →
  files `prefix_of` r.
Proof.
  apply (collect_invariant prefix); [apply _..|].
  intros files' new. apply foldl_Set_add_prefix.
Qed.

Lemma collect_keeps_collected_files_witness :
  [file3] `prefix_of` [file3; file1; file2].
Proof.
  apply (collect_keeps_collected_files 3 state_nested (Some [idA]) [file3]).
  vm_compute. reflexivity.
Defined.



(** The files a list of ids stands for in a tracker: the files of the sets
    the ids resolve to, and those of the sets nested in them. *)
Inductive contributes (st : BuildEventState)
  : list NamedSetOfFilesId → File → Prop :=
  | contributes_direct ids id fileSet f :
      id ∈ ids →
      Map_get (fileSets st) (nsid_id id) = Some fileSet →
      f ∈ default [] (nsf_files fileSet) →
      contributes st ids f
  | contributes_nested ids id fileSet f :
      id ∈ ids →
      Map_get (fileSets st) (nsid_id id) = Some fileSet →
      contributes st (default [] (nsf_fileSets fileSet)) f →
      contributes st ids f.

Lemma contributes_nil st f : ¬ contributes st [] f.
Proof. inversion 1 as [? ? ? ? Hin|? ? ? ? Hin]; by apply elem_of_nil in Hin. Qed.

Lemma contributes_cons st id ids f :
  contributes st (id :: ids) f
  ↔ (∃ fileSet,
        Map_get (fileSets st) (nsid_id id) = Some fileSet
        ∧ (f ∈ default [] (nsf_files fileSet)
           ∨ contributes st (default [] (nsf_fileSets fileSet)) f))
    ∨ contributes st ids f.
Proof.
  split.
  - inversion 1 as [? id' fs ? Hin Hget Hf|? id' fs ? Hin Hget Hf]; subst;
      apply elem_of_cons in Hin as [->|Hin];
      try (left; exists fs; by auto).
    + right. by eapply contributes_direct.
    + right. by eapply contributes_nested.
  - intros [(fs & Hget & [Hf|Hf])|Hrest].
    + eapply contributes_direct; [apply list_elem_of_here|done..].
    + eapply contributes_nested; [apply list_elem_of_here|done..].
    + inversion Hrest as [? id' fs ? Hin Hget Hf|? id' fs ? Hin Hget Hf]; subst.
      * eapply contributes_direct; [by apply list_elem_of_further|done..].
      * eapply contributes_nested; [by apply list_elem_of_further|done..].
Qed.

(** X3.  When the resolution returns, the file objects of the result are
    those that were already collected together with the files of every
    registered set reachable from the ids, directly or through nested
    sets: nothing reachable is left out and nothing else is added. *)
Theorem collect_result_is_reachable_files
  (fuel : nat) (st : BuildEventState) (ids : option (list NamedSetOfFilesId))
  (files r : list File) :
  collectFilesFromFileSetIds fuel st ids files = Some r →
  ∀ x, x ∈ file_ref <$> r
       ↔ x ∈ file_ref <$> files
         ∨ ∃ f, contributes st (default [] ids) f ∧ file_ref f = x.
Proof.
  revert ids files r. induction fuel as [|fuel IH]; intros ids files r; [done|].
  destruct ids as [ids|]; cycle 1.
  { intros [= ->] x. split; [by left|]. intros [?|(f & Hf & _)]; [done|].
    by apply contributes_nil in Hf. }
  rewrite collectFilesFromFileSetIds_S. simpl. revert files r.
  induction ids as [|id ids IHids]; intros files r; simpl.
  { intros [= ->] x. split; [by left|]. intros [?|(f & Hf & _)]; [done|].
    by apply contributes_nil in Hf. }
  unfold collectFilesFromFileSetId at 1, collectFilesFromFileSet.
  destruct (Map_get (fileSets st) (nsid_id id)) as [fs|] eqn:Hget; simpl.
  - destruct (collectFilesFromFileSetIds fuel st (nsf_fileSets fs) _)
      as [s1|] eqn:Hnested; simpl; [|done].
    intros Hrest x. rewrite (IHids _ _ Hrest x), (IH _ _ _ Hnested x).
    rewrite foldl_Set_add_refs. generalize (x ∈ file_ref <$> files). intros P.
    rewrite list_elem_of_fmap.
    setoid_rewrite contributes_cons. split.
    + intros [[[?|(f & -> & Hf)]|(f & Hf & <-)]|(f & Hf & <-)]; [by left|right..].
      * exists f. split; [|done]. left. exists fs. by auto.
      * exists f. split; [|done]. left. exists fs. by auto.
      * exists f. by auto.
    + intros [?|(f & [(fs' & Hget' & Hf)|Hf] & <-)]; [by auto| |by eauto].
      assert (fs' = fs) as -> by congruence.
      destruct Hf as [Hf|Hf]; [|by eauto 6].
      left. left. right. by exists f.
  - intros Hrest x. rewrite (IHids _ _ Hrest x).
    setoid_rewrite contributes_cons. split.
    + intros [?|(f & Hf & <-)]; [by left|]. right. exists f. by auto.
    + intros [?|(f & [(fs' & Hget' & _)|Hf] & <-)]; [by left|congruence|by eauto].
Qed.

Lemma collect_result_is_reachable_files_witness :
  file_ref file3 ∈ file_ref <$> [file1; file2; file3].
Proof.
  apply (collect_result_is_reachable_files 3 state_nested (Some [idA]) []).
  - vm_compute. reflexivity.
  - right. exists file3. split; [|done].
    apply (contributes_nested state_nested [idA] idA
             {| nsf_files := Some [file1; file2]; nsf_fileSets := Some [idB] |}).
    + apply list_elem_of_here.
    + vm_compute. reflexivity.
    + apply (contributes_direct state_nested [idB] idB
               {| nsf_files := Some [file3]; nsf_fileSets := None |}).
      * apply list_elem_of_here.
      * vm_compute. reflexivity.
      * apply list_elem_of_here.
Defined.

(** ** Target kinds and icons *)

(** X4.  The kind stored by a [configured] event is the kind found for a
    [completed] event with the same label (also when both labels are
    missing), whatever was stored before under that label; the kinds of
    other labels are as they were. *)
Theorem getTargetKind_after_handleTargetConfigured
  (st : BuildEventState) (configured completed : BazelBuildEvent) :
  (id_targetConfigured_label configured = id_targetCompleted_label completed →
   getTargetKind (handleTargetConfigured st configured) completed
   = bes_configured configured ?. targetKind)
  ∧ (id_targetConfigured_label configured ≠ id_targetCompleted_label completed →
     getTargetKind (handleTargetConfigured st configured) completed
     = getTargetKind st completed).
Proof.
  unfold getTargetKind, handleTargetConfigured, Map_get. simpl. split.
  - intros ->. rewrite lookup_insert_eq. simpl.
    by destruct (bes_configured configured).
  - intros Hne. by rewrite lookup_insert_ne.
Qed.

Lemma getTargetKind_after_handleTargetConfigured_witness :
  getTargetKind (handleTargetConfigured BuildEventState_new event_configured)
    event_completed
  = Some "cc_library rule".
Proof.
  exact (proj1 (getTargetKind_after_handleTargetConfigured
                  BuildEventState_new event_configured event_completed) eq_refl).
Defined.

Lemma substring_0_app (s t : string) :
  String.substring 0 (String.length s) (s +:+ t) = s.
Proof. induction s as [|c s IH]; simpl; [by destruct t|by rewrite IH]. Qed.

Lemma substring_0_all (t : string) :
  String.substring 0 (String.length t) t = t.
Proof. induction t as [|c t IH]; simpl; [done|by rewrite IH]. Qed.

Lemma substring_skip_app (s t : string) :
  String.substring (String.length s) (String.length t) (s +:+ t) = t.
Proof.
  induction s as [|c s IH]; [apply substring_0_all|done].
Qed.

Lemma length_app_string (s t : string) :
  String.length (s +:+ t) = String.length s + String.length t.
Proof. induction s as [|c s IH]; simpl; [done|by rewrite IH]. Qed.

Lemma String_endsWith_app (s t : string) : String_endsWith (s +:+ t) t = true.
Proof.
  unfold String_endsWith. rewrite length_app_string.
  replace (String.length s + String.length t - String.length t)
    with (String.length s) by lia.
  rewrite substring_skip_app, String.eqb_refl, andb_true_r.
  apply Nat.leb_le. lia.
Qed.

(** X5.  The icon of a completed target: a failed target has the "stop"
    icon whatever its kind; a successful target whose configured kind is
    [name] followed by " rule" has the image of [name] on results.bzl.io;
    a successful target that was never configured has the
    "symbol-interface" icon. *)
Theorem getTargetIcon_cases
  (st : BuildEventState) (event : BazelBuildEvent) (completed : TargetComplete) :
  (truthy_bool (tc_success completed) = false →
   getTargetIcon st event completed = ThemeIcon "stop")
  ∧ (∀ name,
       truthy_bool (tc_success completed) = true →
       getTargetKind st event = Some (name +:+ " rule") →
       getTargetIcon st event completed
       = UriIcon ("https://results.bzl.io/v1/image/rule/" +:+ name +:+ ".svg"))
  ∧ (truthy_bool (tc_success completed) = true →
     getTargetKind st event = None →
     getTargetIcon st event completed = ThemeIcon "symbol-interface").
Proof.
  unfold getTargetIcon. repeat split.
  - by intros ->.
  - intros name -> ->. cbn [negb].
    rewrite String_endsWith_app, length_app_string.
    replace (String.length name + String.length " rule" - 5)
      with (String.length name) by (simpl; lia).
    by rewrite substring_0_app.
  - by intros -> ->.
Qed.

Lemma getTargetIcon_cases_witness :
  getTargetIcon (handleTargetConfigured BuildEventState_new event_configured)
    event_completed
    {| tc_success := Some true; tc_outputGroup := None;
       tc_importantOutput := None; tc_failureDetail := None |}
  = UriIcon "https://results.bzl.io/v1/image/rule/cc_library.svg".
Proof.
  exact (proj1 (proj2 (getTargetIcon_cases
                         (handleTargetConfigured BuildEventState_new event_configured)
                         event_completed
                         {| tc_success := Some true; tc_outputGroup := None;
                            tc_importantOutput := None; tc_failureDetail := None |}))
           "cc_library" eq_refl eq_refl).
Defined.

(** ** The list of the view across events *)

Definition is_started_event (e : BazelBuildEvent) : bool :=
  match bes_payload e with
  | PStarted _ => true
  | _ => false
  end.

Lemma filter_attention_idemp (l : list BazelBuildEventItem) :
  List.filter attention (List.filter attention l) = List.filter attention l.
Proof.
  induction l as [|x l IH]; simpl; [done|].
  destruct (attention x) eqn:Hx; simpl; [by rewrite Hx, IH|done].
Qed.

Lemma filter_attention_snoc (l : list BazelBuildEventItem) (item : BazelBuildEventItem) :
  List.filter attention (l ++ [item])
  = List.filter attention l ++ (if attention item then [item] else []).
Proof. rewrite List.filter_app. simpl. by destruct (attention item). Qed.

Lemma handleActionExecutedEventSuccess_attention v e action :
  List.filter attention (getRootItems (handleActionExecutedEventSuccess v e action))
  = List.filter attention (getRootItems v).
Proof.
  rewrite handleActionExecutedEventSuccess_elems.
  destruct (getRootItems v) as [|x l] eqn:Hl.
  - destruct (prop_m1 (items v)) as [p|]; [|done]. by destruct (is_ActionSuccessItem p).
  - destruct (last_is_success (x :: l)) eqn:Hlast.
    + unfold last_is_success in Hlast.
      destruct (last (x :: l)) as [y|] eqn:Hy; [|done].
      apply last_Some in Hy as [l' Hl']. rewrite Hl'.
      rewrite removelast_last, !filter_attention_snoc. simpl.
      by destruct y.
    + rewrite filter_attention_snoc. simpl. by rewrite app_nil_r.
Qed.

Lemma handleBazelBuildEvent_attention_prefix v e :
  is_started_event e = false →
  List.filter attention (getRootItems v)
    `prefix_of` List.filter attention (getRootItems (handleBazelBuildEvent v e).1).
Proof.
  unfold is_started_event, handleBazelBuildEvent.
  destruct (bes_payload e) as [s|i|a|f|c|c|f|t|k]; intros Hns; cbn [fst]; try done.
  - unfold handleActionExecutedEvent. destruct (truthy_bool _).
    + by rewrite handleActionExecutedEventSuccess_attention.
    + unfold getRootItems, addItem. simpl. rewrite filter_attention_snoc.
      by apply prefix_app_r.
  - unfold getRootItems, handleCompletedEvent, addItem. simpl.
    rewrite filter_attention_snoc. by apply prefix_app_r.
  - unfold handleFinishedEvent.
    destruct (if truthy_bool _ then _ else _); cbn [fst];
      unfold getRootItems, addItem; simpl.
    + rewrite filter_attention_snoc, filter_attention_idemp. by apply prefix_app_r.
    + by rewrite filter_attention_idemp.
  - unfold handleTestResultEvent. destruct (status_is _ _); [done|].
    unfold getRootItems, addItem. simpl. rewrite filter_attention_snoc.
    by apply prefix_app_r.
Qed.

(** X6.  Within a build, an item that asks for attention is never lost and
    never reordered: through any events other than [started], [finished]
    included, the attention items of the list before are the first
    attention items of the list after. *)
Theorem attention_items_are_kept
  (v : BuildEventProtocolView) (es : list BazelBuildEvent) :
  Forall (λ e, is_started_event e = false) es →
  List.filter attention (getRootItems v)
    `prefix_of` List.filter attention (getRootItems (processEvents v es)).
Proof.
  unfold processEvents. revert v.
  induction es as [|e es IH]; intros v Hes; simpl; [done|].
  apply Forall_cons in Hes as [He Hes].
  etrans; [by apply handleBazelBuildEvent_attention_prefix|by apply IH].
Qed.

Lemma attention_items_are_kept_witness :
  [ActionFailedItem (event_action 2 None) Expanded]
    `prefix_of` List.filter attention
      (getRootItems
         (processEvents
            (processEvents BuildEventProtocolView_new [event_action 2 None])
            [event_action 3 (Some true); event_completed;
             event_finished false (Some 2500%Z)])).
Proof.
  apply (attention_items_are_kept
           (processEvents BuildEventProtocolView_new [event_action 2 None])
           [event_action 3 (Some true); event_completed;
            event_finished false (Some 2500%Z)]).
  repeat constructor.
Defined.

(** X7.  A [started] event starts the view afresh whatever came before:
    the list is the started item of that event alone, no test is counted as
    passed, no file set is registered, the workspace information is gone,
    and the tracker and the problem collector hold the new start. *)
Theorem started_event_resets_view
  (v : BuildEventProtocolView) (es : list BazelBuildEvent)
  (e : BazelBuildEvent) (s : BuildStarted) :
  bes_payload e = PStarted s →
  let v' := processEvents v (es ++ [e]) in
  getRootItems v' = [BuildStartedItem e]
  ∧ testsPassed v' = []
  ∧ fileSets (state v') = ∅
  ∧ workspaceInfo (state v') = None
  ∧ started (state v') = Some s
  ∧ problemCollector_started v' = Some s.
Proof.
  intros Hp v'. subst v'. unfold processEvents. rewrite foldl_snoc.
  generalize (foldl (λ v0 e0, (handleBazelBuildEvent v0 e0).1) v es). intros w.
  unfold handleBazelBuildEvent. rewrite Hp. by repeat split.
Qed.

Lemma started_event_resets_view_witness :
  getRootItems
    (processEvents BuildEventProtocolView_new
       ([event_action 2 None; event_setA] ++ [event_started (Some 1000%Z)]))
  = [BuildStartedItem (event_started (Some 1000%Z))].
Proof.
  exact (proj1 (started_event_resets_view BuildEventProtocolView_new
                  [event_action 2 None; event_setA]
                  (event_started (Some 1000%Z)) _ eq_refl)).
Defined.

Lemma handleBazelBuildEvent_keeps_head v e x :
  is_started_event e = false →
  attention x = true →
  head (getRootItems v) = Some x →
  head (getRootItems (handleBazelBuildEvent v e).1) = Some x.
Proof.
  intros Hns Hx Hhead.
  destruct (getRootItems v) as [|y rest] eqn:Hl; [done|].
  injection Hhead as ->.
  unfold is_started_event, handleBazelBuildEvent in *.
  destruct (bes_payload e) as [s|i|a|f|c|c|f|t|k]; cbn [fst]; try done;
    try by (unfold getRootItems in *; simpl; rewrite Hl).
  - unfold handleActionExecutedEvent. destruct (truthy_bool _).
    + rewrite handleActionExecutedEventSuccess_elems, Hl.
      destruct (last_is_success (x :: rest)) eqn:Hlast; [|done].
      destruct rest as [|y rest]; [|done].
      unfold last_is_success in Hlast. simpl in Hlast. by destruct x.
    + unfold getRootItems in *. simpl. by rewrite Hl.
  - unfold handleFinishedEvent.
    destruct (if truthy_bool _ then _ else _); cbn [fst];
      unfold getRootItems in *; simpl; rewrite Hl; simpl; by rewrite Hx.
  - unfold handleTestResultEvent. destruct (status_is _ _);
      unfold getRootItems in *; simpl; by rewrite Hl.
Qed.

(** X8.  The started item of the latest [started] event is the first item
    of the list after every later event of that build. *)
Theorem started_item_stays_first
  (v : BuildEventProtocolView) (e0 : BazelBuildEvent) (s : BuildStarted)
  (es : list BazelBuildEvent) :
  bes_payload e0 = PStarted s →
  Forall (λ e, is_started_event e = false) es →
  head (getRootItems (processEvents v (e0 :: es))) = Some (BuildStartedItem e0).
Proof.
  intros Hp Hes. unfold processEvents. simpl.
  assert (Hhead : head (getRootItems (handleBazelBuildEvent v e0).1)
                  = Some (BuildStartedItem e0)).
  { unfold handleBazelBuildEvent. by rewrite Hp. }
  revert Hhead. generalize (handleBazelBuildEvent v e0).1.
  induction Hes as [|e es He Hes IH]; intros w Hw; simpl; [done|].
  by apply IH, handleBazelBuildEvent_keeps_head.
Qed.

Lemma started_item_stays_first_witness :
  head (getRootItems
          (processEvents BuildEventProtocolView_new
             [event_started (Some 1000%Z); event_action 2 (Some true);
              event_completed; event_finished true (Some 2500%Z)]))
  = Some (BuildStartedItem (event_started (Some 1000%Z))).
Proof.
  apply (started_item_stays_first BuildEventProtocolView_new
           (event_started (Some 1000%Z)) _
           [event_action 2 (Some true); event_completed;
            event_finished true (Some 2500%Z)] eq_refl).
  repeat constructor.
Defined.

(** ** Test results *)

Lemma status_is_true (name : string) (status : option EnumValue) :
  status_is name status = true ↔ status = Some (EnumName name).
Proof.
  unfold status_is. destruct status as [[s|n]|]; try by split.
  rewrite String.eqb_eq. split; [by intros ->|by intros [= ->]].
Qed.

(** X9.  A test result adds no item exactly when its status is the string
    'PASSED': the test is then counted among the passed tests and the list
    is as before.  With any other status, a numeric one or none at all
    included, a failed-test item that asks for attention is appended and
    the passed tests are as before. *)
Theorem testResult_event_item
  (v : BuildEventProtocolView) (e : BazelBuildEvent) (test : TestResult) :
  bes_payload e = PTestResult test →
  let v' := (handleBazelBuildEvent v e).1 in
  (tr_status test = Some (EnumName "PASSED") →
   getRootItems v' = getRootItems v ∧ testsPassed v' = testsPassed v ++ [test])
  ∧ (tr_status test ≠ Some (EnumName "PASSED") →
     getRootItems v' = getRootItems v ++ [TestResultFailedItem e]
     ∧ attention (TestResultFailedItem e) = true
     ∧ testsPassed v' = testsPassed v).
Proof.
  intros Hp v'. subst v'. unfold handleBazelBuildEvent. rewrite Hp. cbn [fst].
  unfold handleTestResultEvent.
  destruct (status_is "PASSED" (tr_status test)) eqn:Hs.
  - apply status_is_true in Hs. split; [done|]. by intros [].
  - split; [|done]. intros Hpassed. apply status_is_true in Hpassed. congruence.
Qed.

Lemma testResult_event_item_witness :
  let e := {| obe_sequenceNumber := 7; bes_id := Some (IdTestResult (Some "//app:test"));
              bes_payload := PTestResult {| tr_status := Some (EnumNumber 1);
                                            tr_statusDetails := None;
                                            tr_testActionOutput := None |} |} in
  getRootItems (handleBazelBuildEvent BuildEventProtocolView_new e).1
  = [] ++ [TestResultFailedItem e].
Proof.
  intros e.
  refine (proj1 (proj2 (testResult_event_item BuildEventProtocolView_new e _ eq_refl) _)).
  discriminate.
Defined.

(** ** The end of a build *)

(** X10.  What a [finished] event leaves behind.  Every item of the list
    asks for attention.  When the finish time of the event and the start
    time held by the tracker are both there, the handler returns and the
    list is the attention items of before, in their order, followed by one
    terminal item, a success item exactly when [overallSuccess] is set.
    When one of them is missing the handler throws and the list is the
    attention items of before, nothing appended.  The tracker is not
    touched either way. *)
Theorem finished_event_outcome
  (v : BuildEventProtocolView) (e : BazelBuildEvent) (finished : BuildFinished) :
  bes_payload e = PFinished finished →
  let r := handleBazelBuildEvent v e in
  Forall (λ item, attention item = true) (getRootItems r.1)
  ∧ state r.1 = state v
  ∧ (is_Some (finishTimeMillis finished)
     ∧ is_Some (started (state v) ?. startTimeMillis) →
     r.2 = Returned ()
     ∧ ∃ delta label,
         getRootItems r.1
         = List.filter attention (getRootItems v)
             ++ [if truthy_bool (overallSuccess finished)
                 then BuildSuccessItem e delta label
                 else BuildFailedItem e delta label])
  ∧ (finishTimeMillis finished = None
     ∨ started (state v) ?. startTimeMillis = None →
     (∃ err, r.2 = Threw err)
     ∧ getRootItems r.1 = List.filter attention (getRootItems v)).
Proof.
  intros Hp r. subst r. unfold handleBazelBuildEvent. rewrite Hp.
  assert (Hfin : bes_finished e ?. finishTimeMillis = finishTimeMillis finished).
  { unfold bes_finished. by rewrite Hp. }
  split; [apply handleFinishedEvent_all_attention|]. split; [|split].
  - unfold handleFinishedEvent. by destruct (if truthy_bool _ then _ else _).
  - intros [[finish Hf] [start Hs]].
    destruct (handleFinishedEvent_appends v e finished finish start)
      as (delta & label & Hr & Hl); [by rewrite Hfin|done|].
    split; [by rewrite Hr|]. by exists delta, label.
  - intros Hmiss.
    destruct (BuildFinishedItem_new_missing e (started (state v))) as [err Herr];
      [by rewrite Hfin|].
    unfold handleFinishedEvent, BuildSuccessItem_new, BuildFailedItem_new.
    cbn [state with_items]. rewrite Herr. simpl.
    destruct (truthy_bool (overallSuccess finished)); simpl; eauto.
Qed.

Lemma finished_event_outcome_witness :
  ∃ delta label,
    getRootItems
      (handleBazelBuildEvent
         (processEvents BuildEventProtocolView_new
            [event_started (Some 1000%Z); event_action 2 (Some true);
             event_action 3 None])
         (event_finished false (Some 2500%Z))).1
    = List.filter attention
        (getRootItems
           (processEvents BuildEventProtocolView_new
              [event_started (Some 1000%Z); event_action 2 (Some true);
               event_action 3 None]))
        ++ [BuildFailedItem (event_finished false (Some 2500%Z)) delta label].
Proof.
  refine (proj2 (proj1 (proj2 (proj2 (finished_event_outcome
            (processEvents BuildEventProtocolView_new
               [event_started (Some 1000%Z); event_action 2 (Some true);
                event_action 3 None])
            (event_finished false (Some 2500%Z)) _ eq_refl))) _)).
  split; by eexists.
Defined.

(** X11.  The terminal item of a build whose two timestamps are within 64
    bits, as is their difference: its label is the name of the exit code
    (or "undefined") followed by the difference in milliseconds in
    parentheses.  The parenthetical is there also when the difference is
    zero or negative. *)
Theorem BuildSuccessItem_new_label
  (event : BazelBuildEvent) (finished : BuildFinished) (s : BuildStarted)
  (finish start : Z) :
  bes_payload event = PFinished finished →
  finishTimeMillis finished = Some finish →
  startTimeMillis s = Some start →
  (- 2 ^ 63 ≤ finish < 2 ^ 63)%Z →
  (- 2 ^ 63 ≤ start < 2 ^ 63)%Z →
  (- 2 ^ 63 ≤ finish - start < 2 ^ 63)%Z →
  let label := template (exitCode finished ?. exit_name)
                 +:+ " (" +:+ pretty (finish - start)%Z +:+ "ms)" in
  BuildSuccessItem_new event (Some s)
  = Returned (BuildSuccessItem event (Some (finish - start)%Z) label)
  ∧ BuildFailedItem_new event (Some s)
    = Returned (BuildFailedItem event (Some (finish - start)%Z) label).
Proof.
  intros Hp Hf Hs Hfr Hsr Hdr label. subst label.
  unfold BuildSuccessItem_new, BuildFailedItem_new.
  rewrite (BuildFinishedItem_new_present event finished s finish start) by done.
  simpl. split; do 3 f_equal.
Qed.

Lemma BuildSuccessItem_new_label_witness :
  BuildFailedItem_new (event_finished false (Some 1000%Z))
    (Some (build_started (Some 1000%Z)))
  = Returned (BuildFailedItem (event_finished false (Some 1000%Z)) (Some 0%Z)
                "BUILD_FAILURE (0ms)").
Proof.
  refine (proj2 (BuildSuccessItem_new_label
                   (event_finished false (Some 1000%Z)) _ (build_started (Some 1000%Z))
                   1000 1000 eq_refl eq_refl eq_refl _ _ _)); lia.
Defined.

(** ** Growth of the list *)

Lemma Array_get_last_snoc (l : list BazelBuildEventItem) (x : BazelBuildEventItem)
  (p : option BazelBuildEventItem) :
  Array_get_last {| elems := l ++ [x]; prop_m1 := p |} = Some x.
Proof.
  destruct (l ++ [x]) as [|y l'] eqn:Hl; [by destruct l|].
  rewrite Array_get_last_cons, <- Hl. apply last_snoc.
Qed.

(** After a successful action the item read at the end of the array is
    the item of that action, and the list has grown by one item at most;
    it has not grown when the item read at the end before was a
    successful-action item. *)
Lemma handleActionExecutedEventSuccess_last v e action :
  let v' := handleActionExecutedEventSuccess v e action in
  Array_get_last (items v') = Some (ActionSuccessItem e)
  ∧ length (getRootItems v') ≤ length (getRootItems v) + 1
  ∧ (∀ x, Array_get_last (items v) = Some x → is_ActionSuccessItem x = true →
          length (getRootItems v') = length (getRootItems v)).
Proof.
  destruct v as [[l p] tests st pc].
  unfold handleActionExecutedEventSuccess, getRootItems. cbn [items].
  destruct l as [|y l _] using rev_ind.
  - unfold Array_get_last, replaceLastItem, addItem, with_items, Array_set_last,
      Array_push. cbn [items elems prop_m1].
    destruct p as [x|]; [destruct (is_ActionSuccessItem x) eqn:Hx|]; simpl.
    + split; [done|]. split; [lia|done].
    + split; [done|]. split; [lia|]. intros x' [= <-]. congruence.
    + split; [done|]. split; [lia|done].
  - rewrite Array_get_last_snoc.
    destruct (is_ActionSuccessItem y) eqn:Hy.
    + unfold replaceLastItem, with_items. cbn [items].
      rewrite Array_set_last_snoc. cbn [elems].
      rewrite Array_get_last_snoc, !length_app. simpl.
      split; [done|]. split; [lia|done].
    + unfold addItem, with_items, Array_push. cbn [items elems prop_m1].
      rewrite Array_get_last_snoc, !length_app. simpl.
      split; [done|]. split; [lia|]. intros x [= <-]. congruence.
Qed.

Lemma successful_actions_keep_length (es : list BazelBuildEvent) :
  Forall (λ e, is_success_action e = true) es →
  ∀ w x,
    Array_get_last (items w) = Some x → is_ActionSuccessItem x = true →
    length (getRootItems (processEvents w es)) = length (getRootItems w).
Proof.
  induction 1 as [|e es He Hes IH]; intros w x Hx Hsucc; [done|].
  unfold processEvents. simpl. fold (processEvents (handleBazelBuildEvent w e).1 es).
  unfold is_success_action, handleBazelBuildEvent in *.
  destruct (bes_payload e) as [s|i|a|f|c|c|f|t|k]; try done. cbn [fst].
  unfold handleActionExecutedEvent. rewrite He.
  destruct (handleActionExecutedEventSuccess_last w e a) as (Hlast & _ & Hlen).
  rewrite (IH _ _ Hlast) by done. by apply (Hlen x).
Qed.

(** X12.  A run of successful actions, however long, adds one item to the
    list at most. *)
Theorem successful_actions_add_at_most_one_item
  (v : BuildEventProtocolView) (es : list BazelBuildEvent) :
  Forall (λ e, is_success_action e = true) es →
  length (getRootItems (processEvents v es)) ≤ length (getRootItems v) + 1.
Proof.
  intros Hes. destruct Hes as [|e es He Hes]; [simpl; lia|].
  unfold processEvents. simpl. fold (processEvents (handleBazelBuildEvent v e).1 es).
  unfold is_success_action, handleBazelBuildEvent in He |- *.
  destruct (bes_payload e) as [s|i|a|f|c|c|f|t|k]; try done. cbn [fst].
  unfold handleActionExecutedEvent. rewrite He.
  destruct (handleActionExecutedEventSuccess_last v e a) as (Hlast & Hle & _).
  by rewrite (successful_actions_keep_length es Hes _ _ Hlast).
Qed.

Lemma successful_actions_add_at_most_one_item_witness :
  length (getRootItems
            (processEvents BuildEventProtocolView_new
               [event_action 2 (Some true); event_action 3 (Some true);
                event_action 4 (Some true)]))
  ≤ length (getRootItems BuildEventProtocolView_new) + 1.
Proof.
  apply (successful_actions_add_at_most_one_item BuildEventProtocolView_new
           [event_action 2 (Some true); event_action 3 (Some true);
            event_action 4 (Some true)]).
  repeat constructor.
Defined.

(** ** Children of a completed target *)

(** X13.  Output files are resolved once.  After a first call that
    returned, every later call gives the same children, whatever has
    become of the tracker since (more file sets, a reset, a cycle) and
    without any further recursion. *)
Theorem TargetCompleteItem_children_are_cached
  (fuel : nat) (st : BuildEventState) (event : BazelBuildEvent)
  (children : list BazelBuildEventItem)
  (outputs : option (list BazelBuildEventItem)) :
  bes_completed event ?. tc_failureDetail = None →
  TargetCompleteItem_getChildren fuel st event None = Some (children, outputs) →
  outputs = Some children
  ∧ ∀ fuel' st',
      TargetCompleteItem_getChildren fuel' st' event outputs
      = Some (children, outputs).
Proof.
  unfold TargetCompleteItem_getChildren. intros ->.
  destruct (for_of _ _ _) as [files|]; [|done].
  intros [= <- <-]. split; [done|]. by intros fuel' st'.
Qed.

Lemma TargetCompleteItem_children_are_cached_witness :
  TargetCompleteItem_getChildren 0 state_cyclic event_completed
    (Some [FileItem event_completed file1; FileItem event_completed file2])
  = Some ([FileItem event_completed file1; FileItem event_completed file2],
          Some [FileItem event_completed file1; FileItem event_completed file2]).
Proof.
  refine (proj2 (TargetCompleteItem_children_are_cached 2
                   (handleNamedSetOfFiles BuildEventState_new event_setA)
                   event_completed _ _ eq_refl _) 0 state_cyclic).
  vm_compute. reflexivity.
Defined.

Lemma getChildren_of_registered_pair
  (st : BuildEventState) (eA eC : BazelBuildEvent)
  (fileSet : NamedSetOfFiles) (completed : TargetComplete)
  (group : OutputGroup) (id : NamedSetOfFilesId) (f1 f2 : File) (fuel : nat) :
  bes_payload eA = PNamedSetOfFiles fileSet →
  id_namedSet eA ?. nsid_id = nsid_id id →
  nsf_files fileSet = Some [f1; f2] →
  default [] (nsf_fileSets fileSet) = [] →
  file_ref f1 ≠ file_ref f2 →
  bes_payload eC = PCompleted completed →
  tc_failureDetail completed = None →
  tc_outputGroup completed = Some [group] →
  og_fileSets group = Some [id] →
  TargetCompleteItem_getChildren (S (S fuel)) (handleNamedSetOfFiles st eA) eC None
  = Some ([FileItem eC f1; FileItem eC f2],
          Some [FileItem eC f1; FileItem eC f2]).
Proof.
  intros HpA Hkey Hfiles Hnested Hne HpC Hdetail Hgroups Hids.
  unfold TargetCompleteItem_getChildren, bes_completed. rewrite HpC. simpl.
  rewrite Hdetail, Hgroups. simpl. rewrite Hids. simpl.
  unfold collectFilesFromFileSetId, Map_get, bes_namedSetOfFiles. simpl.
  rewrite Hkey, lookup_insert_eq, HpA. simpl.
  rewrite Hfiles.
  change (default [] (Some [f1; f2])) with [f1; f2].
  rewrite (Set_add_two f1 f2 Hne).
  destruct (nsf_fileSets fileSet) as [nested|]; simpl in *; [|done].
  by subst nested.
Qed.

(** X14.  The children are resolved when they are asked for, not when the
    item is built: a file set that is defined only after the [completed]
    event that refers to it is found all the same.  The completed-target
    item stays the last item, and its children are the two files of the
    set. *)
Theorem completed_then_namedSetOfFiles_children
  (v : BuildEventProtocolView) (eA eC : BazelBuildEvent)
  (fileSet : NamedSetOfFiles) (completed : TargetComplete)
  (group : OutputGroup) (id : NamedSetOfFilesId) (f1 f2 : File) (fuel : nat) :
  bes_payload eA = PNamedSetOfFiles fileSet →
  id_namedSet eA ?. nsid_id = nsid_id id →
  nsf_files fileSet = Some [f1; f2] →
  default [] (nsf_fileSets fileSet) = [] →
  file_ref f1 ≠ file_ref f2 →
  bes_payload eC = PCompleted completed →
  tc_failureDetail completed = None →
  tc_outputGroup completed = Some [group] →
  og_fileSets group = Some [id] →
  let v' := processEvents v [eC; eA] in
  (∃ label, last (getRootItems v') = Some (TargetCompleteItem eC label None))
  ∧ TargetCompleteItem_getChildren (S (S fuel)) (state v') eC None
    = Some ([FileItem eC f1; FileItem eC f2],
            Some [FileItem eC f1; FileItem eC f2]).
Proof.
  intros HpA Hkey Hfiles Hnested Hne HpC Hdetail Hgroups Hids v'. subst v'.
  unfold processEvents, handleBazelBuildEvent. simpl. rewrite HpC. simpl.
  rewrite HpA. simpl. split.
  - eexists. unfold getRootItems. simpl. by rewrite last_snoc.
  - by apply (getChildren_of_registered_pair (state v) eA eC fileSet completed group id).
Qed.

Lemma completed_then_namedSetOfFiles_children_witness :
  TargetCompleteItem_getChildren 2
    (state (processEvents BuildEventProtocolView_new [event_completed; event_setA]))
    event_completed None
  = Some ([FileItem event_completed file1; FileItem event_completed file2],
          Some [FileItem event_completed file1; FileItem event_completed file2]).
Proof.
  refine (proj2 (completed_then_namedSetOfFiles_children
                   BuildEventProtocolView_new event_setA event_completed
                   _ _ _ idA file1 file2 0
                   eq_refl eq_refl eq_refl eq_refl _ eq_refl eq_refl eq_refl eq_refl)).
  simpl. lia.
Defined.

Lemma handleBazelBuildEvent_keeps_file_sets v e k :
  is_started_event e = false →
  is_Some (Map_get (fileSets (state v)) k) →
  is_Some (Map_get (fileSets (state (handleBazelBuildEvent v e).1)) k).
Proof.
  unfold is_started_event, handleBazelBuildEvent.
  destruct (bes_payload e) as [s|i|a|f|c|c|f|t|k'] eqn:Hp;
    intros Hns Hk; cbn [fst]; try done.
  - unfold handleActionExecutedEvent, handleActionExecutedEventSuccess.
    destruct (truthy_bool _); [|done].
    destruct (Array_get_last _) as [x|]; [|done]. by destruct (is_ActionSuccessItem x).
  - unfold handleNamedSetOfFilesEvent, handleNamedSetOfFiles, Map_get,
      bes_namedSetOfFiles in *. simpl. rewrite Hp.
    destruct (decide (id_namedSet e ?. nsid_id = k)) as [->|Hne].
    + rewrite lookup_insert_eq. by eexists.
    + by rewrite lookup_insert_ne.
  - unfold handleFinishedEvent. by destruct (if truthy_bool _ then _ else _).
  - unfold handleTestResultEvent. by destruct (status_is _ _).
Qed.

(** X15.  A file set that can be resolved stays resolvable for the rest of
    the build: no event other than [started] removes an id from the
    file-set map (a later event with the same id replaces the set). *)
Theorem registered_file_sets_stay
  (v : BuildEventProtocolView) (es : list BazelBuildEvent) (k : Key) :
  Forall (λ e, is_started_event e = false) es →
  is_Some (Map_get (fileSets (state v)) k) →
  is_Some (Map_get (fileSets (state (processEvents v es))) k).
Proof.
  unfold processEvents. revert v.
  induction es as [|e es IH]; intros v Hes Hk; simpl; [done|].
  apply Forall_cons in Hes as [He Hes].
  by apply IH, handleBazelBuildEvent_keeps_file_sets.
Qed.

Lemma registered_file_sets_stay_witness :
  is_Some (Map_get
             (fileSets (state (processEvents
                                 (processEvents BuildEventProtocolView_new [event_setA])
                                 [event_completed; event_finished true None])))
             (Some "A")).
Proof.
  apply (registered_file_sets_stay
           (processEvents BuildEventProtocolView_new [event_setA])
           [event_completed; event_finished true None] (Some "A")).
  - repeat constructor.
  - vm_compute. by eexists.
Defined.

(** ** Primary output files *)

Lemma first_named_spec (name : string) (files : list File) :
  match first_named name files with
  | Some f =>
      file_name f = name
      ∧ ∃ before after,
          files = before ++ f :: after
          ∧ Forall (λ g, file_name g ≠ name) before
  | None => Forall (λ g, file_name g ≠ name) files
  end.
Proof.
  induction files as [|g files IH]; simpl; [constructor|].
  destruct (String.eqb_spec (file_name g) name) as [Heq|Hne].
  - split; [done|]. exists [], files. by split; [|constructor].
  - destruct (first_named name files) as [f|].
    + destruct IH as (Hf & before & after & -> & Hbefore).
      split; [done|]. exists (g :: before), after. split; [done|by constructor].
    + by constructor.
Qed.

(** X16.  The primary output of a failed test is the first of its action
    outputs that is named "test.log", and none when no output has that
    name; when the test result carries no list of action outputs the
    lookup throws. *)
Theorem TestResultFailedItem_primary_output (event : BazelBuildEvent) :
  (bes_testResult event ?. tr_testActionOutput = None →
   ∃ err, getPrimaryOutputFile (TestResultFailedItem event) = Threw err)
  ∧ ∀ files,
      bes_testResult event ?. tr_testActionOutput = Some files →
      (∀ f, getPrimaryOutputFile (TestResultFailedItem event) = Returned (Some f)
            ↔ ∃ before after,
                files = before ++ f :: after
                ∧ file_name f = "test.log"
                ∧ Forall (λ g, file_name g ≠ "test.log") before)
      ∧ (getPrimaryOutputFile (TestResultFailedItem event) = Returned None
         ↔ Forall (λ g, file_name g ≠ "test.log") files).
Proof.
  unfold getPrimaryOutputFile, TestResultFailedItem_getPrimaryOutputFile. split.
  - intros ->. by eexists.
  - intros files ->.
    pose proof (first_named_spec "test.log" files) as Hspec.
    destruct (first_named "test.log" files) as [f0|].
    + destruct Hspec as (Hname & before & after & Hfiles & Hbefore). split.
      * intros f. split.
        -- intros [= <-]. by exists before, after.
        -- intros (before' & after' & Hfiles' & Hname' & Hbefore').
           do 2 f_equal. subst files.
           clear -Hfiles' Hname Hname' Hbefore Hbefore'.
           revert before' Hfiles' Hbefore'.
           induction before as [|g before IH]; intros [|g' before'] Heq Hb';
             simpl in Heq; injection Heq as -> Heq.
           ++ done.
           ++ by apply Forall_cons in Hb' as [? _].
           ++ by apply Forall_cons in Hbefore as [? _].
           ++ apply Forall_cons in Hbefore as [_ Hbefore].
              apply Forall_cons in Hb' as [_ Hb']. by apply (IH Hbefore before').
      * split; [done|]. intros Hall. subst files.
        apply Forall_app in Hall as [_ Hall].
        by apply Forall_cons in Hall as [? _].
    + split.
      * intros f. split; [done|].
        intros (before & after & -> & Hname & _).
        apply Forall_app in Hspec as [_ Hspec].
        by apply Forall_cons in Hspec as [? _].
      * done.
Qed.

Definition event_test_failed (outputs : option (list File)) : BazelBuildEvent :=
  {| obe_sequenceNumber := 7;
     bes_id := Some (IdTestResult (Some "//app:test"));
     bes_payload := PTestResult {| tr_status := Some (EnumName "FAILED");
                                   tr_statusDetails := None;
                                   tr_testActionOutput := outputs |} |}.

Lemma TestResultFailedItem_primary_output_witness :
  ∃ err,
    getPrimaryOutputFile (TestResultFailedItem (event_test_failed None)) = Threw err.
Proof.
  exact (proj1 (TestResultFailedItem_primary_output (event_test_failed None)) eq_refl).
Defined.

(** ** Children of a failed action *)

Section ActionChildren.

Context {ProblemMatcher : Type}.
Context (registry_get : option string → option ProblemMatcher).
Context (readAndParse : ProblemMatcher → string → Outcome Problems).

(** X17.  A failed action whose stderr is a file behind a URI, with a
    matcher registered for its mnemonic.  When reading and parsing the
    file gives problems, the children are one problem-file item per
    resource, in the order of the problems, and the item keeps its
    collapsible state; when it throws, the call for the children throws
    the same error.  The stdout of the action is not looked at. *)
Theorem ActionFailedItem_children_from_stderr
  (event : BazelBuildEvent) (action : ActionExecuted) (stderr : File)
  (matcher : ProblemMatcher) (uri : string)
  (collapsibleState : TreeItemCollapsibleState) :
  bes_action event = Some action →
  truthy_bool (action_success action) = false →
  action_stderr action = Some stderr →
  registry_get (action_type action) = Some matcher →
  truthy_contents (file_contents stderr) = false →
  file_uri stderr = Some uri →
  uri ≠ "" →
  ActionFailedItem_getChildren registry_get readAndParse event collapsibleState
  = match readAndParse matcher uri with
    | Returned problems =>
        Returned (Some (map (λ p, ProblemFileItem event p.1 p.2) problems),
                  collapsibleState)
    | Threw err => Threw err
    end.
Proof.
  intros He Hfail Hstderr Hm Hc Hu Hne.
  unfold ActionFailedItem_getChildren, actionProblems. rewrite He, Hfail, Hstderr.
  rewrite (fileProblems_uri registry_get readAndParse _ stderr matcher uri) by done.
  by destruct (readAndParse matcher uri).
Qed.

End ActionChildren.

Lemma ActionFailedItem_children_from_stderr_witness :
  ActionFailedItem_getChildren registry_cpp parse_reports_one
    (event_failed_action stderr_by_uri) Expanded
  = Returned
      (Some [ProblemFileItem (event_failed_action stderr_by_uri)
               "file:///tmp/stderr-1" [marker_at "file:///tmp/stderr-1"]],
       Expanded).
Proof.
  refine (ActionFailedItem_children_from_stderr registry_cpp parse_reports_one
            (event_failed_action stderr_by_uri) _ stderr_by_uri "gcc"
            "file:///tmp/stderr-1" Expanded
            eq_refl eq_refl eq_refl eq_refl eq_refl eq_refl _).
  discriminate.
Defined.

(** ** Splitting a label *)

Lemma string_app_cons (x : Ascii.ascii) (a b : string) :
  String x a +:+ b = String x (a +:+ b).
Proof. reflexivity. Qed.

Lemma string_app_nil_l (a : string) : "" +:+ a = a.
Proof. reflexivity. Qed.

Lemma string_app_assoc (a b c : string) : (a +:+ b) +:+ c = a +:+ (b +:+ c).
Proof.
  induction a as [|x a IH]; [done|]. by rewrite !string_app_cons, IH.
Qed.

Lemma string_app_nil_r (a : string) : a +:+ "" = a.
Proof. induction a as [|x a IH]; [done|]. by rewrite string_app_cons, IH. Qed.

Lemma strip_prefix_Some (p s rest : string) :
  strip_prefix p s = Some rest ↔ s = p +:+ rest.
Proof.
  revert s. induction p as [|a p IH]; intros s; simpl.
  - split; [by intros [= ->]|by intros ->].
  - destruct s as [|b s]; [by split|].
    destruct (Ascii.eqb_spec a b) as [->|Hne].
    + rewrite IH. split; [by intros ->|by intros [= ->]].
    + split; [done|]. intros [= ? _]. congruence.
Qed.

Example String_split_examples :
  String_split "//" "@ws//pkg/sub:target" = ["@ws"; "pkg/sub:target"]
  ∧ String_split "//" "a///b" = ["a"; "/b"]
  ∧ String_split ":" "pkg:" = ["pkg"; ""]
  ∧ String_split "//" "" = [""].
Proof. repeat split; vm_compute; reflexivity. Qed.

(** [pieces.join(sep)] *)
Fixpoint String_join (sep : string) (pieces : list string) : string :=
  match pieces with
  | [] => ""
  | [x] => x
  | x :: rest => x +:+ sep +:+ String_join sep rest
  end.

(** [sep] occurs somewhere in [s]; [c] is one of the characters of [s]. *)
Definition occurs (sep s : string) : Prop := ∃ a b, s = a +:+ sep +:+ b.

Fixpoint String_has (c : Ascii.ascii) (s : string) : bool :=
  match s with
  | EmptyString => false
  | String x s' => Ascii.eqb c x || String_has c s'
  end.

Lemma split_scan_nonempty fuel sep cur s : split_scan fuel sep cur s ≠ [].
Proof.
  revert cur s. induction fuel as [|fuel IH]; intros cur s; simpl; [done|].
  destruct (strip_prefix sep s); [done|]. destruct s; [done|apply IH].
Qed.

Lemma String_join_cons sep x rest :
  rest ≠ [] → String_join sep (x :: rest) = x +:+ sep +:+ String_join sep rest.
Proof. by destruct rest. Qed.

Lemma length_sep_pos (sep : string) : sep ≠ "" → 0 < String.length sep.
Proof. destruct sep; [done|simpl; lia]. Qed.

Lemma split_scan_join (sep : string) :
  sep ≠ "" →
  ∀ fuel cur s,
    String.length s < fuel →
    String_join sep (split_scan fuel sep cur s) = cur +:+ s.
Proof.
  intros Hsep fuel. induction fuel as [|fuel IH]; intros cur s Hlen; [lia|].
  simpl. destruct (strip_prefix sep s) as [rest|] eqn:Hstrip.
  - apply strip_prefix_Some in Hstrip as ->.
    rewrite length_app_string in Hlen. pose proof (length_sep_pos sep Hsep).
    rewrite String_join_cons by apply split_scan_nonempty.
    by rewrite IH by lia.
  - destruct s as [|c s]; simpl; [by rewrite string_app_nil_r|].
    simpl in Hlen. rewrite IH by lia. by rewrite string_app_assoc.
Qed.

Lemma split_scan_fuel (sep : string) :
  sep ≠ "" →
  ∀ n m cur s,
    String.length s < n → String.length s < m →
    split_scan n sep cur s = split_scan m sep cur s.
Proof.
  intros Hsep n. induction n as [|n IH]; intros m cur s Hn Hm; [lia|].
  destruct m as [|m]; [lia|]. simpl.
  destruct (strip_prefix sep s) as [rest|] eqn:Hstrip.
  - apply strip_prefix_Some in Hstrip as ->.
    rewrite length_app_string in Hn, Hm. pose proof (length_sep_pos sep Hsep).
    f_equal. apply IH; lia.
  - destruct s as [|c s]; [done|]. simpl in Hn, Hm. apply IH; lia.
Qed.

Lemma split_scan_none (sep : string) :
  ∀ fuel cur s,
    ¬ occurs sep s →
    split_scan fuel sep cur s = [cur +:+ s].
Proof.
  intros fuel. induction fuel as [|fuel IH]; intros cur s Hno; [done|].
  simpl. destruct (strip_prefix sep s) as [rest|] eqn:Hstrip.
  - apply strip_prefix_Some in Hstrip as ->. destruct Hno. by exists "", rest.
  - destruct s as [|c s]; [by rewrite string_app_nil_r|].
    rewrite IH; [by rewrite string_app_assoc|].
    intros (a & b & ->). apply Hno. by exists (String c a), b.
Qed.

Lemma split_scan_S fuel sep cur s :
  split_scan (S fuel) sep cur s
  = match strip_prefix sep s with
    | Some rest => cur :: split_scan fuel sep "" rest
    | None =>
        match s with
        | EmptyString => [cur]
        | String c s' => split_scan fuel sep (cur +:+ String c "") s'
        end
    end.
Proof. reflexivity. Qed.

Lemma split_scan_first (c0 : Ascii.ascii) (sep' : string) :
  ∀ a k cur b,
    String_has c0 a = false →
    split_scan (S (String.length a + k)) (String c0 sep') cur
      (a +:+ String c0 sep' +:+ b)
    = (cur +:+ a) :: split_scan k (String c0 sep') "" b.
Proof.
  intros a. induction a as [|x a IH]; intros k cur b Hhas.
  - cbn [String.length plus]. rewrite string_app_nil_l, string_app_nil_r.
    rewrite split_scan_S.
    by rewrite (proj2 (strip_prefix_Some (String c0 sep') _ b) eq_refl).
  - simpl in Hhas. apply orb_false_iff in Hhas as [Hx Hhas].
    cbn [String.length plus]. rewrite string_app_cons, split_scan_S.
    cbn [strip_prefix]. rewrite Hx.
    rewrite (IH k _ b Hhas). by rewrite string_app_assoc.
Qed.

Lemma String_split_first (c0 : Ascii.ascii) (sep' a b : string) :
  String_has c0 a = false →
  String_split (String c0 sep') (a +:+ String c0 sep' +:+ b)
  = a :: String_split (String c0 sep') b.
Proof.
  intros Hhas. unfold String_split.
  rewrite !length_app_string.
  rewrite (split_scan_first c0 sep' a _ "" b Hhas). f_equal.
  apply split_scan_fuel; simpl; [done|lia..].
Qed.

Lemma String_has_occurs (c : Ascii.ascii) (sep' s : string) :
  String_has c s = false → ¬ occurs (String c sep') s.
Proof.
  intros Hhas (a & b & ->). induction a as [|x a IH].
  - simpl in Hhas. by rewrite Ascii.eqb_refl in Hhas.
  - rewrite string_app_cons in Hhas. simpl in Hhas.
    apply orb_false_iff in Hhas as [_ Hhas]. by apply IH.
Qed.

(** X18.  A label that [splitLabel] accepts is its three parts put back
    together: the workspace (empty in the label when the part is the
    default "@"), "//", the package, ":", the target.  The workspace part
    is never empty. *)
Theorem splitLabel_sound (label : string) (parts : LabelParts) :
  splitLabel label = Some parts →
  lp_ws parts ≠ ""
  ∧ ∃ h0,
      label = h0 +:+ "//" +:+ lp_pkg parts +:+ ":" +:+ lp_target parts
      ∧ (h0 = lp_ws parts ∨ h0 = "" ∧ lp_ws parts = "@").
Proof.
  unfold splitLabel. destruct (String.eqb label ""); [done|].
  pose proof (split_scan_join "//" ltac:(done) (S (String.length label)) "" label
                ltac:(lia)) as Hjoin.
  fold (String_split "//" label) in Hjoin.
  destruct (String_split "//" label) as [|h0 [|h1 [|? ?]]]; try done.
  pose proof (split_scan_join ":" ltac:(done) (S (String.length h1)) "" h1
                ltac:(lia)) as Hjoin1.
  fold (String_split ":" h1) in Hjoin1.
  destruct (String_split ":" h1) as [|pkg [|target [|? ?]]]; try done.
  intros [= <-]. cbn [lp_ws lp_pkg lp_target].
  cbn [String_join] in Hjoin, Hjoin1. rewrite string_app_nil_l in Hjoin, Hjoin1.
  split.
  - by destruct (String.eqb_spec h0 "").
  - exists h0. split; [by rewrite <- Hjoin, <- Hjoin1|].
    destruct (String.eqb_spec h0 ""); [by right|by left].
Qed.

Lemma splitLabel_sound_witness :
  ∃ h0, "//app/lib:core" = h0 +:+ "//" +:+ "app/lib" +:+ ":" +:+ "core"
        ∧ (h0 = "@" ∨ h0 = "" ∧ "@" = "@").
Proof.
  exact (proj2 (splitLabel_sound "//app/lib:core"
                  {| lp_ws := "@"; lp_pkg := "app/lib"; lp_target := "core" |}
                  eq_refl)).
Defined.

(** X19.  Round trip: for a workspace name without "/", a package and a
    target without ":", and no "//" in what follows the workspace,
    splitting the label written from the three parts gives the parts back,
    the empty workspace name read as "@". *)
Theorem splitLabel_round_trip (ws pkg target : string) :
  String_has "/"%char ws = false →
  String_has ":"%char pkg = false →
  String_has ":"%char target = false →
  ¬ occurs "//" (pkg +:+ ":" +:+ target) →
  splitLabel (ws +:+ "//" +:+ pkg +:+ ":" +:+ target)
  = Some {| lp_ws := if String.eqb ws "" then "@" else ws;
            lp_pkg := pkg; lp_target := target |}.
Proof.
  intros Hws Hpkg Htarget Hno. unfold splitLabel.
  destruct (String.eqb_spec (ws +:+ "//" +:+ pkg +:+ ":" +:+ target) "") as [Hempty|_].
  { by destruct ws. }
  rewrite (String_split_first "/"%char "/" ws _ Hws).
  unfold String_split at 1. rewrite (split_scan_none "//" _ "" _ Hno).
  rewrite string_app_nil_l.
  rewrite (String_split_first ":"%char "" pkg _ Hpkg).
  unfold String_split. rewrite (split_scan_none ":" _ "" target).
  - by rewrite string_app_nil_l.
  - by apply String_has_occurs.
Qed.

Lemma splitLabel_round_trip_witness :
  splitLabel ("" +:+ "//" +:+ "app/lib" +:+ ":" +:+ "core")
  = Some {| lp_ws := "@"; lp_pkg := "app/lib"; lp_target := "core" |}.
Proof.
  refine (splitLabel_round_trip "" "app/lib" "core" eq_refl eq_refl eq_refl _).
  intros (a & b & Heq).
  repeat (destruct a as [|? a]; [discriminate|]; injection Heq as _ Heq).
  by destruct a.
Defined.

(** X20.  A label without "//" is not split: the result is undefined,
    for the empty label as for any other. *)
Theorem splitLabel_without_slashes (label : string) :
  ¬ occurs "//" label → splitLabel label = None.
Proof.
  intros Hno. unfold splitLabel, String_split.
  destruct (String.eqb label ""); [done|].
  by rewrite (split_scan_none "//" _ "" label Hno).
Qed.

Lemma splitLabel_without_slashes_witness : splitLabel "app:core" = None.
Proof.
  apply splitLabel_without_slashes.
  intros (a & b & Heq).
  repeat (destruct a as [|? a]; [discriminate|]; injection Heq as _ Heq).
  by destruct a.
Defined.
